(** * dbus-broker: the Bus Manager (src/broker/manager.c)

    A shallow embedding of the Manager of dbus-broker: the signal and
    controller dispatch callbacks, construction and teardown, the hangup
    policy, one iteration of the dispatch loop and the run loop.

    C [int]s are [Z]; the only arithmetic on them is the negation of an
    errno.  Intrusive [CList]s are Rocq lists of the objects that are linked
    (an object is linked on at most one list through one link member).
    [assert] is modelled by the outcome [Crash]; loops whose termination
    depends on the callbacks take fuel and give [Spin] when it runs out. *)

From Stdlib Require Import ZArith List Bool Lia String Ascii.
Import ListNotations.
Local Open Scope Z_scope.

Set Implicit Arguments.

(** ** Outcomes of a C call *)

Inductive outcome (A : Type) : Type :=
| Ret (a : A)      (* the call returned *)
| Crash            (* an assert() failed *)
| Spin.            (* the call did not return within the fuel given *)

Arguments Ret {A} a.
Arguments Crash {A}.
Arguments Spin {A}.

Definition bind {A B : Type} (o : outcome A) (k : A -> outcome B) : outcome B :=
  match o with
  | Ret a => k a
  | Crash => Crash
  | Spin => Spin
  end.

(** [assert(c)] *)
Definition c_assert (c : bool) : outcome unit :=
  if c then Ret tt else Crash.

(** ** Platform constants (Linux ABI: <signal.h>, <sys/epoll.h>, <errno.h>,
    <sys/signalfd.h>) *)

Definition SIGINT : Z := 2.
Definition SIGTERM : Z := 15.
Definition EPOLLIN : Z := 1.
Definition ENOMEM : Z := 12.
(** sizeof(struct signalfd_siginfo) *)
Definition sizeof_signalfd_siginfo : Z := 128.

(** ** Signal sets: [sigset_t] is a bit set, signal [n] is bit [n - 1] *)

Definition sigset_t : Type := Z.

Definition sigemptyset : sigset_t := 0.
Definition sigaddset (set : sigset_t) (signo : Z) : sigset_t :=
  Z.lor set (Z.shiftl 1 (signo - 1)).
Definition sigismember (set : sigset_t) (signo : Z) : bool :=
  Z.testbit set (signo - 1).

(** ** util/error.h *)

(** util/error.h is not among the sources.  Section 7 of the spec: an origin
    error is "captured with the originating negative error code"; a folded
    error is "propagated upward unchanged in meaning, optionally annotated
    with trace context, never reinterpreted". *)

(** Modelled from the spec: error_origin of util/error.h, which hands the
    originating error code through. *)
Definition error_origin (r : Z) : Z := r.

(** Modelled from the spec: error_fold of util/error.h, which hands the
    error of a sub-component through unchanged. *)
Definition error_fold (r : Z) : Z := r.

(** Modelled from the spec: error_trace of util/error.h, which hands the
    code through and only adds trace context. *)
Definition error_trace (r : Z) : Z := r.

(** ** c-list.h *)

Section CList.
Variable A : Type.
Variable eqb : A -> A -> bool.

Definition CList : Type := list A.

(** C_LIST_INIT *)
Definition C_LIST_INIT : CList := [].

Definition c_list_is_empty (l : CList) : bool :=
  match l with
  | [] => true
  | _ :: _ => false
  end.

(** c_list_first_entry: the first entry, NULL (None) on an empty list *)
Definition c_list_first_entry (l : CList) : option A :=
  match l with
  | [] => None
  | x :: _ => Some x
  end.

(** c_list_unlink / c_list_unlink_init: take the entry out of the list it
    is linked on *)
Fixpoint c_list_unlink (x : A) (l : CList) : CList :=
  match l with
  | [] => []
  | y :: l' => if eqb x y then l' else y :: c_list_unlink x l'
  end.

Definition c_list_link_tail (l : CList) (x : A) : CList := l ++ [x].

(** Modelled from the spec: c_list_splice of c-list.h is not among the
    sources.  Section 4.6, step 3: "splice the temporary processed list
    back onto the ready list's head so order is preserved"; the source
    list is left empty.  The result is the new [target]. *)
Definition c_list_splice (target source : CList) : CList := source ++ target.
End CList.

(** ** Objects linked on the Manager's lists *)

(** A [Connection *]: the Manager's embedded controller, or any other. *)
Inductive Conn : Type :=
| Controller
| Peer (n : nat).

(** A [DispatchFile *]: the Manager's signal file, the controller's socket
    file, or any other. *)
Inductive File : Type :=
| SignalsFile
| ControllerFile
| OtherFile (n : nat).

Definition conn_eqb (a b : Conn) : bool :=
  match a, b with
  | Controller, Controller => true
  | Peer n, Peer m => Nat.eqb n m
  | _, _ => false
  end.

Definition file_eqb (a b : File) : bool :=
  match a, b with
  | SignalsFile, SignalsFile => true
  | ControllerFile, ControllerFile => true
  | OtherFile n, OtherFile m => Nat.eqb n m
  | _, _ => false
  end.

(** ** struct Manager *)

(** The embedded sub-objects are kept by their initialisation state:
    [false] is the _NULL initialiser, [true] an initialised object. *)
Record Manager : Type := mkManager {
  users : bool;
  dispatcher : bool;
  dispatcher_list : CList File;
  dispatcher_hup : CList Conn;
  signals_fd : Z;
  signals_file : bool;
  controller : bool
}.

Definition set_users (v : bool) (m : Manager) : Manager :=
  mkManager v (dispatcher m) (dispatcher_list m) (dispatcher_hup m)
            (signals_fd m) (signals_file m) (controller m).
Definition set_dispatcher (v : bool) (m : Manager) : Manager :=
  mkManager (users m) v (dispatcher_list m) (dispatcher_hup m)
            (signals_fd m) (signals_file m) (controller m).
Definition set_dispatcher_list (l : CList File) (m : Manager) : Manager :=
  mkManager (users m) (dispatcher m) l (dispatcher_hup m)
            (signals_fd m) (signals_file m) (controller m).
Definition set_dispatcher_hup (l : CList Conn) (m : Manager) : Manager :=
  mkManager (users m) (dispatcher m) (dispatcher_list m) l
            (signals_fd m) (signals_file m) (controller m).
Definition set_signals_fd (fd : Z) (m : Manager) : Manager :=
  mkManager (users m) (dispatcher m) (dispatcher_list m) (dispatcher_hup m)
            fd (signals_file m) (controller m).
Definition set_signals_file (v : bool) (m : Manager) : Manager :=
  mkManager (users m) (dispatcher m) (dispatcher_list m) (dispatcher_hup m)
            (signals_fd m) v (controller m).
Definition set_controller (v : bool) (m : Manager) : Manager :=
  mkManager (users m) (dispatcher m) (dispatcher_list m) (dispatcher_hup m)
            (signals_fd m) (signals_file m) v.

(** ** Construction and teardown: resources and the calls made *)

(** What the Manager holds of the process's resources. *)
Inductive resource : Type :=
| ResStorage                 (* the calloc'ed struct Manager *)
| ResRegistry                (* the initialised UserRegistry *)
| ResContext                 (* the initialised DispatchContext *)
| ResDescriptor (fd : Z)     (* an open descriptor: the signalfd *)
| ResWatch (fd : Z)          (* a DispatchFile registered for [fd] *)
| ResUserRef                 (* one reference on the peer's UserEntry *)
| ResConnection.             (* the initialised controller Connection *)

Definition resource_eqb (a b : resource) : bool :=
  match a, b with
  | ResStorage, ResStorage => true
  | ResRegistry, ResRegistry => true
  | ResContext, ResContext => true
  | ResDescriptor x, ResDescriptor y => Z.eqb x y
  | ResWatch x, ResWatch y => Z.eqb x y
  | ResUserRef, ResUserRef => true
  | ResConnection, ResConnection => true
  | _, _ => false
  end.

(** The ledger without the latest [r] it holds. *)
Fixpoint give_back (r : resource) (l : list resource) : list resource :=
  match l with
  | [] => []
  | x :: l' => if resource_eqb r x then l' else x :: give_back r l'
  end.

(** The calls into libc and the collaborators, as they are made. *)
Inductive call : Type :=
| CallGetsockopt (fd : Z)
| CallCalloc
| CallUserRegistryInit
| CallDispatchContextInit
| CallSignalfd (mask : sigset_t)
| CallDispatchFileInit (fd : Z) (events : Z)
| CallUserRegistryRefEntry (uid : Z)
| CallConnectionInitServer (fd : Z)
| CallDispatchFileSelect (events : Z)
| CallUserEntryUnref
| CallConnectionDeinit
| CallDispatchFileDeinit
| CallClose (fd : Z)
| CallAssertHupEmpty
| CallAssertListEmpty
| CallDispatchContextDeinit
| CallUserRegistryDeinit
| CallFree.

Record Heap : Type := mkHeap {
  ledger : list resource;    (* resources held, latest first *)
  calls : list call          (* calls made, oldest first *)
}.

(** State and outcome monad over the heap. *)
Definition M (A : Type) : Type := Heap -> outcome (A * Heap).

Definition ret {A : Type} (a : A) : M A := fun h => Ret (a, h).

Definition bindM {A B : Type} (c : M A) (k : A -> M B) : M B :=
  fun h => bind (c h) (fun ah => k (fst ah) (snd ah)).

Notation "x <- c ;; k" := (bindM c (fun x => k))
  (at level 61, c at next level, right associativity).
Notation "c ;; k" := (bindM c (fun _ => k))
  (at level 61, right associativity).

Definition note (c : call) : M unit :=
  fun h => Ret (tt, mkHeap (ledger h) (calls h ++ [c])).

Definition acquire (r : resource) : M unit :=
  fun h => Ret (tt, mkHeap (r :: ledger h) (calls h)).

Definition release (r : resource) : M unit :=
  fun h => Ret (tt, mkHeap (give_back r (ledger h)) (calls h)).

Definition assertM (c : bool) : M unit :=
  fun h => bind (c_assert c) (fun _ => Ret (tt, h)).

(** *** The collaborators' deinitialisers

    connection.c, util/dispatch.c and user.c are not among the sources.
    Section 3 of the spec: a Watched File is "unregistered (and descriptor
    closed) when the owner is destroyed" and is on the ready list "only
    while it has undelivered ready events"; a hangup entry is the
    Connection's membership in the hangup list.  A deinitialiser releases
    what its object holds, takes the object's links out of the Manager's
    lists, and does nothing more on an object still at its _NULL
    initialiser. *)

(** Modelled from the spec: connection_deinit of connection.c.  The
    Connection gives up its reference on the UserEntry and leaves both of
    the Manager's lists. *)
Definition connection_deinit (m : Manager) : M Manager :=
  note CallConnectionDeinit ;;
  (if controller m then release ResUserRef ;; release ResConnection else ret tt) ;;
  ret (set_controller false
        (set_dispatcher_hup (c_list_unlink conn_eqb Controller (dispatcher_hup m))
          (set_dispatcher_list (c_list_unlink file_eqb ControllerFile (dispatcher_list m)) m))).

(** Modelled from the spec: dispatch_file_deinit of util/dispatch.c.  The
    file is unregistered and leaves the ready list. *)
Definition dispatch_file_deinit (m : Manager) : M Manager :=
  note CallDispatchFileDeinit ;;
  (if signals_file m then release (ResWatch (signals_fd m)) else ret tt) ;;
  ret (set_signals_file false
        (set_dispatcher_list (c_list_unlink file_eqb SignalsFile (dispatcher_list m)) m)).

(** c_close of c-macro.h: closes a descriptor; on a negative one (none was
    opened) there is nothing to close. *)
Definition c_close (fd : Z) : M unit :=
  note (CallClose fd) ;;
  if 0 <=? fd then release (ResDescriptor fd) else ret tt.

(** Modelled from the spec: dispatch_context_deinit of util/dispatch.c. *)
Definition dispatch_context_deinit (m : Manager) : M Manager :=
  note CallDispatchContextDeinit ;;
  (if dispatcher m then release ResContext else ret tt) ;;
  ret (set_dispatcher false m).

(** Modelled from the spec: user_registry_deinit of user.c. *)
Definition user_registry_deinit (m : Manager) : M unit :=
  note CallUserRegistryDeinit ;;
  if users m then release ResRegistry else ret tt.

(** free(manager) *)
Definition free : M unit :=
  note CallFree ;; release ResStorage.

(** Modelled from the spec: user_entry_unref of user.c, which gives up one
    reference on the UserEntry. *)
Definition user_entry_unref : M unit :=
  note CallUserEntryUnref ;; release ResUserRef.

(** *** manager_free (manager.c, lines 126-140) *)

Definition manager_free (manager : option Manager) : M unit :=
  match manager with
  | None => ret tt
  | Some m =>
      m <- connection_deinit m ;;
      m <- dispatch_file_deinit m ;;
      c_close (signals_fd m) ;;
      note CallAssertHupEmpty ;;
      assertM (c_list_is_empty (dispatcher_hup m)) ;;
      note CallAssertListEmpty ;;
      assertM (c_list_is_empty (dispatcher_list m)) ;;
      m <- dispatch_context_deinit m ;;
      user_registry_deinit m ;;
      free
  end.

(** The calls of one teardown of [m], in order. *)
Definition teardown_calls (m : Manager) : list call :=
  [CallConnectionDeinit; CallDispatchFileDeinit; CallClose (signals_fd m);
   CallAssertHupEmpty; CallAssertListEmpty; CallDispatchContextDeinit;
   CallUserRegistryDeinit; CallFree].

(** What is still linked on the Manager's lists when the controller and the
    signal file have been deinitialised. *)
Definition left_on_hup (m : Manager) : CList Conn :=
  c_list_unlink conn_eqb Controller (dispatcher_hup m).
Definition left_on_list (m : Manager) : CList File :=
  c_list_unlink file_eqb SignalsFile
    (c_list_unlink file_eqb ControllerFile (dispatcher_list m)).

(** *** manager_new (manager.c, lines 59-124) *)

(** What libc and the collaborators answer during one construction. *)
Record Environment : Type := mkEnvironment {
  getsockopt_ret : Z;
  getsockopt_errno : Z;
  ucred_uid : Z;
  calloc_ok : bool;
  dispatch_context_init_ret : Z;
  signalfd_ret : Z;
  signalfd_errno : Z;
  dispatch_file_init_ret : Z;
  user_registry_ref_entry_ret : Z;
  connection_init_server_ret : Z
}.

(** getsockopt(controller_fd, SOL_SOCKET, SO_PEERCRED, ...) *)
Definition getsockopt (e : Environment) (fd : Z) : M Z :=
  note (CallGetsockopt fd) ;; ret (getsockopt_ret e).

(** calloc(1, sizeof *manager): NULL, or the zeroed struct to which lines
    76-81 give the _NULL initialisers, empty lists and the descriptor -1. *)
Definition calloc (e : Environment) : M (option Manager) :=
  note CallCalloc ;;
  if calloc_ok e then
    acquire ResStorage ;;
    ret (Some (mkManager false false (C_LIST_INIT File) (C_LIST_INIT Conn)
                         (-1) false false))
  else ret None.

(** signalfd(-1, &sigmask, SFD_CLOEXEC | SFD_NONBLOCK): a new descriptor, or
    a negative value. *)
Definition signalfd (e : Environment) (mask : sigset_t) : M Z :=
  note (CallSignalfd mask) ;;
  if signalfd_ret e <? 0 then ret (signalfd_ret e)
  else acquire (ResDescriptor (signalfd_ret e)) ;; ret (signalfd_ret e).

(** The collaborators' initialisers.  user.c, util/dispatch.c and
    connection.c are not among the sources.  Section 4.1 of the spec:
    construction must "fail atomically (no partial resource leak)"; an
    initialiser that fails therefore holds nothing and leaves its object at
    the _NULL initialiser. *)

(** Modelled from the spec: user_registry_init of user.c, which cannot
    fail. *)
Definition user_registry_init (m : Manager) : M Manager :=
  note CallUserRegistryInit ;; acquire ResRegistry ;; ret (set_users true m).

(** Modelled from the spec: dispatch_context_init of util/dispatch.c. *)
Definition dispatch_context_init (e : Environment) (m : Manager)
    : M (Z * Manager) :=
  note CallDispatchContextInit ;;
  if dispatch_context_init_ret e =? 0 then
    acquire ResContext ;; ret (0, set_dispatcher true m)
  else ret (dispatch_context_init_ret e, m).

(** Modelled from the spec: dispatch_file_init of util/dispatch.c, on the
    Manager's signal file. *)
Definition dispatch_file_init (e : Environment) (m : Manager) (events : Z)
    : M (Z * Manager) :=
  note (CallDispatchFileInit (signals_fd m) events) ;;
  if dispatch_file_init_ret e =? 0 then
    acquire (ResWatch (signals_fd m)) ;; ret (0, set_signals_file true m)
  else ret (dispatch_file_init_ret e, m).

(** Modelled from the spec: user_registry_ref_entry of user.c: the result,
    and whether [user] now holds a reference. *)
Definition user_registry_ref_entry (e : Environment) (uid : Z) : M (Z * bool) :=
  note (CallUserRegistryRefEntry uid) ;;
  if user_registry_ref_entry_ret e =? 0 then
    acquire ResUserRef ;; ret (0, true)
  else ret (user_registry_ref_entry_ret e, false).

(** Modelled from the spec: connection_init_server of connection.c.  The
    Connection takes a reference of its own on the UserEntry (section 3:
    the entry lives as long as a Connection refers to it). *)
Definition connection_init_server (e : Environment) (m : Manager) (fd : Z)
    : M (Z * Manager) :=
  note (CallConnectionInitServer fd) ;;
  if connection_init_server_ret e =? 0 then
    acquire ResUserRef ;; acquire ResConnection ;;
    ret (0, set_controller true m)
  else ret (connection_init_server_ret e, m).

(** Modelled from the spec: dispatch_file_select of util/dispatch.c, which
    arms the file and, with no event delivered yet, links it nowhere. *)
Definition dispatch_file_select (m : Manager) (events : Z) : M unit :=
  note (CallDispatchFileSelect events).

(** Leaving the scope of manager_new: the _c_cleanup_ handlers run in the
    reverse order of the declarations, [user] first, then [manager]; each
    does nothing on NULL. *)
Definition scope_exit (manager : option Manager) (user : bool)
    (r : Z) (managerp : option Manager) : M (Z * option Manager) :=
  (if user then user_entry_unref else ret tt) ;;
  manager_free manager ;;
  ret (r, managerp).

Definition manager_new (e : Environment) (controller_fd : Z)
    : M (Z * option Manager) :=
  r <- getsockopt e controller_fd ;;
  if r <? 0 then
    scope_exit None false (error_origin (- getsockopt_errno e)) None
  else
  manager <- calloc e ;;
  match manager with
  | None => scope_exit None false (error_origin (- ENOMEM)) None
  | Some manager =>
  manager <- user_registry_init manager ;;
  rm <- dispatch_context_init e manager ;;
  let (r, manager) := rm in
  if negb (r =? 0) then
    scope_exit (Some manager) false (error_fold r) None
  else
  let sigmask := sigaddset (sigaddset sigemptyset SIGTERM) SIGINT in
  fd <- signalfd e sigmask ;;
  let manager := set_signals_fd fd manager in
  if signals_fd manager <? 0 then
    scope_exit (Some manager) false (error_origin (- signalfd_errno e)) None
  else
  rm <- dispatch_file_init e manager EPOLLIN ;;
  let (r, manager) := rm in
  if negb (r =? 0) then
    scope_exit (Some manager) false (error_fold r) None
  else
  ru <- user_registry_ref_entry e (ucred_uid e) ;;
  let (r, user) := ru in
  if negb (r =? 0) then
    scope_exit (Some manager) user (error_fold r) None
  else
  rm <- connection_init_server e manager controller_fd ;;
  let (r, manager) := rm in
  if negb (r =? 0) then
    scope_exit (Some manager) user (error_fold r) None
  else
  dispatch_file_select manager EPOLLIN ;;
  (* *managerp = manager; manager = NULL; return 0; *)
  scope_exit None user 0 (Some manager)
  end.

(** Some step of the construction fails. *)
Definition construction_fails (e : Environment) : bool :=
  (getsockopt_ret e <? 0) || negb (calloc_ok e)
  || negb (dispatch_context_init_ret e =? 0) || (signalfd_ret e <? 0)
  || negb (dispatch_file_init_ret e =? 0)
  || negb (user_registry_ref_entry_ret e =? 0)
  || negb (connection_init_server_ret e =? 0).

(** ** The dispatch callbacks *)

(** The control codes of util/dispatch.h and main.h.  The headers are not
    among the sources: the codes are parameters of the development. *)
Class Codes : Type := mkCodes {
  DISPATCH_E_EXIT : Z;
  DISPATCH_E_FAILURE : Z;
  MAIN_EXIT : Z;
  MAIN_FAILED : Z
}.

(** What read(manager->signals_fd, &si, sizeof(si)) answers. *)
Record ReadResult : Type := mkReadResult {
  read_ret : Z;
  read_errno : Z;
  ssi_signo : Z
}.

Definition newline : string := String (ascii_of_nat 10) EmptyString.

(** manager_dispatch_signals (manager.c, lines 32-53): the value returned and
    what was written to stderr. *)
Definition manager_dispatch_signals `{Codes} (main_arg_verbose : bool)
    (rd : ReadResult) (events : Z) : outcome (Z * list string) :=
  bind (c_assert (events =? EPOLLIN)) (fun _ =>
  let l := read_ret rd in
  if l <? 0 then
    Ret (error_origin (- read_errno rd), [])
  else
  bind (c_assert (l =? sizeof_signalfd_siginfo)) (fun _ =>
  let stderr :=
    if main_arg_verbose then
      [String.append "Caught "
         (String.append
            (if ssi_signo rd =? SIGTERM then "SIGTERM"
             else if ssi_signo rd =? SIGINT then "SIGINT"
             else "SIG?")
            (String.append ", exiting" newline))]
    else [] in
  Ret (DISPATCH_E_EXIT, stderr))).

(** manager_dispatch_controller (manager.c, lines 55-57) *)
Definition manager_dispatch_controller (file : File) (events : Z) : Z := 0.

(** ** The running system *)

(** The Manager, the list [processed] of manager_dispatch (a local of the
    function, which the callbacks reach through the links of the files on
    it), and the rest of the world: connections, buffers, the kernel. *)
Record Sys (W : Type) : Type := mkSys {
  manager : Manager;
  processed : CList File;
  world : W
}.

Definition ready {W} (s : Sys W) : CList File := dispatcher_list (manager s).
Definition hup {W} (s : Sys W) : CList Conn := dispatcher_hup (manager s).

Definition with_ready {W} (l : CList File) (s : Sys W) : Sys W :=
  mkSys (set_dispatcher_list l (manager s)) (processed s) (world s).
Definition with_hup {W} (l : CList Conn) (s : Sys W) : Sys W :=
  mkSys (set_dispatcher_hup l (manager s)) (processed s) (world s).
Definition with_processed {W} (l : CList File) (s : Sys W) : Sys W :=
  mkSys (manager s) l (world s).

(** connection.h and util/dispatch.h: the collaborators the loop calls.  A
    callback may change the whole system, the lists included. *)
Class Collaborators (W : Type) : Type := mkCollaborators {
  connection_is_running : W -> Conn -> bool;
  dispatch_context_poll : Z -> Sys W -> outcome (Z * Sys W);
  dispatch_file_call : File -> Sys W -> outcome (Z * Sys W)
}.

(** What one run of the loop did, in order. *)
Inductive Label : Type :=
| LHangup (connection : Conn) (r : Z)     (* manager_hangup gave [r] *)
| LCall (file : File) (ret : Z) (r : Z).  (* the callback gave [ret], mapped to [r] *)

Record Step (W : Type) : Type := mkStep {
  pre : Sys W;      (* the system when the entry was taken off its list *)
  lab : Label;
  post : Sys W      (* the system when the loop went on *)
}.

Section Dispatch.
Context `{codes : Codes} {W : Type} `{collab : Collaborators W}.

(** manager_hangup (manager.c, lines 142-152) *)
Definition manager_hangup (s : Sys W) (connection : Conn) : Z :=
  if conn_eqb connection Controller then
    if connection_is_running (world s) connection then 0 else MAIN_EXIT
  else 0.

(** manager.c, lines 165-168: the first inner loop.  [pending] is the
    hangup list of [s]; unlinking its first entry leaves the rest. *)
Fixpoint hangup_loop (pending : CList Conn) (r : Z) (s : Sys W)
    : list (Step W) * (Z * Sys W) :=
  if r =? 0 then
    match pending with
    | [] => ([], (r, s))
    | connection :: rest =>
        let s1 := with_hup rest s in
        let r1 := error_trace (manager_hangup s1 connection) in
        let (tr, res) := hangup_loop rest r1 s1 in
        (mkStep s (LHangup connection r1) s1 :: tr, res)
    end
  else ([], (r, s)).

(** manager.c, lines 201-206: the callback's result in the loop's codes *)
Definition dispatch_result (r : Z) : Z :=
  if r =? DISPATCH_E_EXIT then MAIN_EXIT
  else if r =? DISPATCH_E_FAILURE then MAIN_FAILED
  else error_fold r.

(** manager.c, lines 197-198: from the ready list to [processed] *)
Definition take_file (file : File) (s : Sys W) : Sys W :=
  with_processed (c_list_link_tail (processed s) file)
    (with_ready (c_list_unlink file_eqb file (ready s)) s).

(** manager.c, lines 170-207: the second inner loop *)
Fixpoint ready_loop (fuel : nat) (r : Z) (s : Sys W)
    : list (Step W) * outcome (Z * Sys W) :=
  if (r =? 0) && c_list_is_empty (hup s) then
    match c_list_first_entry (ready s) with
    | None => ([], Ret (r, s))
    | Some file =>
        match fuel with
        | O => ([], Spin)
        | S fuel' =>
            match dispatch_file_call file (take_file file s) with
            | Ret (ret, s2) =>
                let r1 := dispatch_result ret in
                let (tr, o) := ready_loop fuel' r1 s2 in
                (mkStep s (LCall file ret r1) s2 :: tr, o)
            | Crash => ([], Crash)
            | Spin => ([], Spin)
            end
        end
    end
  else ([], Ret (r, s)).

(** manager.c, lines 164-208: do { ... } while (!r) *)
Fixpoint dispatch_loop (fuel : nat) (r : Z) (s : Sys W)
    : list (Step W) * outcome (Z * Sys W) :=
  let '(tr1, (r1, s1)) := hangup_loop (hup s) r s in
  let '(tr2, o) := ready_loop fuel r1 s1 in
  match o with
  | Ret (r2, s2) =>
      if r2 =? 0 then
        match fuel with
        | O => (tr1 ++ tr2, Spin)
        | S fuel' =>
            let (tr3, o3) := dispatch_loop fuel' r2 s2 in
            (tr1 ++ tr2 ++ tr3, o3)
        end
      else (tr1 ++ tr2, Ret (r2, s2))
  | Crash => (tr1 ++ tr2, Crash)
  | Spin => (tr1 ++ tr2, Spin)
  end.

(** manager.c, lines 155 and 160: [processed] starts empty; the poll
    waits for ever (-1) unless the ready list has entries (0). *)
Definition polled (s : Sys W) : outcome (Z * Sys W) :=
  let s := with_processed (C_LIST_INIT File) s in
  dispatch_context_poll (if c_list_is_empty (ready s) then -1 else 0) s.

(** manager.c, line 210: c_list_splice(&manager->dispatcher_list,
    &processed), which leaves [processed] empty. *)
Definition spliced (s : Sys W) : Sys W :=
  with_processed (C_LIST_INIT File)
    (with_ready (c_list_splice (ready s) (processed s)) s).

(** manager_dispatch (manager.c, lines 154-212) *)
Definition manager_dispatch (fuel : nat) (s : Sys W)
    : list (Step W) * outcome (Z * Sys W) :=
  match polled s with
  | Ret (r, s1) =>
      if negb (r =? 0) then ([], Ret (error_fold r, s1))
      else
        let (tr, o) := dispatch_loop fuel r s1 in
        (tr, bind o (fun rs => Ret (fst rs, spliced (snd rs))))
  | Crash => ([], Crash)
  | Spin => ([], Spin)
  end.

(** *** manager_run (manager.c, lines 214-231) *)

Record Process : Type := mkProcess {
  sigmask : sigset_t;     (* the signals the process blocks *)
  sys : Sys W
}.

Inductive how : Type := SIG_BLOCK | SIG_SETMASK.

(** sigprocmask(how, set, oldset): the old mask and the process after *)
Definition sigprocmask (h : how) (set : sigset_t) (p : Process)
    : sigset_t * Process :=
  (sigmask p,
   mkProcess (match h with
              | SIG_BLOCK => Z.lor (sigmask p) set
              | SIG_SETMASK => set
              end) (sys p)).

(** One call of manager_dispatch from manager_run. *)
Record Iteration : Type := mkIteration {
  iter_mask : sigset_t;         (* the mask in force during the call *)
  iter_steps : list (Step W);
  iter_ret : Z
}.

(** manager.c, lines 224-226: do { r = manager_dispatch(manager); } while (!r) *)
Fixpoint run_loop (fuel : nat) (p : Process)
    : list Iteration * outcome (Z * Process) :=
  let (tr, o) := manager_dispatch fuel (sys p) in
  match o with
  | Ret (r, s') =>
      let it := mkIteration (sigmask p) tr r in
      let p' := mkProcess (sigmask p) s' in
      if r =? 0 then
        match fuel with
        | O => ([it], Spin)
        | S fuel' =>
            let (its, o') := run_loop fuel' p' in
            (it :: its, o')
        end
      else ([it], Ret (r, p'))
  | Crash => ([], Crash)
  | Spin => ([], Spin)
  end.

(** The iterations of [its] all gave zero, but the last, which gave the
    non-zero [r]. *)
Definition until_nonzero (its : list Iteration) (r : Z) : Prop :=
  exists before last,
    its = before ++ [last] /\
    Forall (fun it => iter_ret it = 0) before /\
    iter_ret last = r /\ r <> 0.

Definition manager_run (fuel : nat) (p : Process)
    : list Iteration * outcome (Z * Process) :=
  let signew := sigaddset (sigaddset sigemptyset SIGTERM) SIGINT in
  let (sigold, p1) := sigprocmask SIG_BLOCK signew p in
  let (its, o) := run_loop fuel p1 in
  (its, bind o (fun rp =>
          let (_, p2) := sigprocmask SIG_SETMASK sigold (snd rp) in
          Ret (error_trace (fst rp), p2))).

(** *** Reading a trace *)

(** The system after the steps of [tr], started in [s]. *)
Fixpoint state_after (s : Sys W) (tr : list (Step W)) : Sys W :=
  match tr with
  | [] => s
  | st :: tr' => state_after (post st) tr'
  end.

(** The files whose callbacks ran, in order. *)
Fixpoint called_files (tr : list (Step W)) : list File :=
  match tr with
  | [] => []
  | st :: tr' =>
      match lab st with
      | LCall file _ _ => file :: called_files tr'
      | LHangup _ _ => called_files tr'
      end
  end.

Definition is_call (l : Label) : bool :=
  match l with
  | LCall _ _ _ => true
  | LHangup _ _ => false
  end.

(** The connections handed to manager_hangup, in order. *)
Fixpoint hung_up (tr : list (Step W)) : list Conn :=
  match tr with
  | [] => []
  | st :: tr' =>
      match lab st with
      | LHangup connection _ => connection :: hung_up tr'
      | LCall _ _ _ => hung_up tr'
      end
  end.
End Dispatch.

Arguments Process W : clear implicits.
Arguments Iteration W : clear implicits.

(** ** What a step of a trace must have been *)

Section Steps.
Context `{codes : Codes} {W : Type} `{collab : Collaborators W}.

(** A hangup step took the first entry off the hangup list and asked the
    policy; a call step found the hangup list empty, moved the first ready
    entry to [processed] and ran its callback. *)
Definition step_ok (st : Step W) : Prop :=
  match lab st with
  | LHangup connection r =>
      exists rest,
        hup (pre st) = connection :: rest /\
        post st = with_hup rest (pre st) /\
        r = error_trace (manager_hangup (post st) connection)
  | LCall file ret r =>
      hup (pre st) = [] /\
      c_list_first_entry (ready (pre st)) = Some file /\
      dispatch_file_call file (take_file file (pre st)) = Ret (ret, post st) /\
      r = dispatch_result ret
  end.

(** The steps follow one another from [s]. *)
Fixpoint chained (s : Sys W) (tr : list (Step W)) : Prop :=
  match tr with
  | [] => True
  | st :: tr' => pre st = s /\ chained (post st) tr'
  end.

(** A trace the loop may have produced from [s]. *)
Definition sound (s : Sys W) (tr : list (Step W)) : Prop :=
  Forall step_ok tr /\ chained s tr.

(** Neither the hangup policy nor a callback gives the loop a non-zero
    code. *)
Definition quiet : Prop :=
  (forall (s : Sys W) connection, manager_hangup s connection = 0) /\
  (forall file (s : Sys W), exists ret s',
     dispatch_file_call file s = Ret (ret, s') /\ dispatch_result ret = 0).

(** A callback leaves the list [processed] as it found it: it neither
    unlinks a file that was dispatched in this pass nor links one there. *)
Definition keeps_processed : Prop :=
  forall file s ret s',
    dispatch_file_call file s = Ret (ret, s') -> processed s' = processed s.
End Steps.

(** ** More to say about construction *)

(** The call gives up a reference on the UserEntry. *)
Definition is_unref (c : call) : bool :=
  match c with
  | CallUserEntryUnref => true
  | _ => false
  end.

(** The call frees the Manager's storage. *)
Definition is_free (c : call) : bool :=
  match c with
  | CallFree => true
  | _ => false
  end.

(** How many of the calls satisfy [p]. *)
Definition count (p : call -> bool) (l : list call) : nat :=
  List.length (filter p l).

(** The construction gets as far as a successful calloc. *)
Definition storage_taken (e : Environment) : bool :=
  negb (getsockopt_ret e <? 0) && calloc_ok e.

(** The construction gets as far as a successful user_registry_ref_entry. *)
Definition reference_taken (e : Environment) : bool :=
  storage_taken e && (dispatch_context_init_ret e =? 0)
  && negb (signalfd_ret e <? 0) && (dispatch_file_init_ret e =? 0)
  && (user_registry_ref_entry_ret e =? 0).

(** The answer of the first step that fails, in the order of manager.c,
    lines 67-117; 0 when none does. *)
Definition first_error (e : Environment) : Z :=
  if getsockopt_ret e <? 0 then - getsockopt_errno e
  else if negb (calloc_ok e) then - ENOMEM
  else if negb (dispatch_context_init_ret e =? 0) then
    dispatch_context_init_ret e
  else if signalfd_ret e <? 0 then - signalfd_errno e
  else if negb (dispatch_file_init_ret e =? 0) then
    dispatch_file_init_ret e
  else if negb (user_registry_ref_entry_ret e =? 0) then
    user_registry_ref_entry_ret e
  else if negb (connection_init_server_ret e =? 0) then
    connection_init_server_ret e
  else 0.

(** What a call returned, without what it wrote. *)
Definition returned {A : Type} (o : outcome (Z * A)) : outcome Z :=
  bind o (fun x => Ret (fst x)).

(** ** More to say about a pass *)

Section Passes.
Context `{codes : Codes} {W : Type} `{collab : Collaborators W}.

(** The code a step left the loop with. *)
Definition step_code (st : Step W) : Z :=
  match lab st with
  | LHangup _ r => r
  | LCall _ _ r => r
  end.

(** Every step of [tr] was taken with the loop's code at zero; [r] is the
    code before the first step. *)
Fixpoint taken_on_zero (r : Z) (tr : list (Step W)) : Prop :=
  match tr with
  | [] => True
  | st :: tr' => r = 0 /\ taken_on_zero (step_code st) tr'
  end.

(** The loop's code after the steps of [tr]; [r] is the code before them. *)
Fixpoint code_after (r : Z) (tr : list (Step W)) : Z :=
  match tr with
  | [] => r
  | st :: tr' => code_after (step_code st) tr'
  end.

(** A callback leaves the ready list as it found it: it queues no file and
    takes none off. *)
Definition keeps_ready : Prop :=
  forall file (s : Sys W) ret s',
    dispatch_file_call file s = Ret (ret, s') -> ready s' = ready s.
End Passes.

(** ** The run loop over any dispatch function

    manager_run (manager.c, lines 214-231) with its callee as a parameter:
    the loop of lines 224-226 is the same whatever manager_dispatch does,
    and is stated for a callee that may return zero. *)

Section Runs.
Context {W : Type}.
Variable dispatch : nat -> Sys W -> list (Step W) * outcome (Z * Sys W).

(** manager.c, lines 224-226: do { r = dispatch(manager); } while (!r) *)
Fixpoint run_loop_over (fuel : nat) (p : Process W)
    : list (Iteration W) * outcome (Z * Process W) :=
  let (tr, o) := dispatch fuel (sys p) in
  match o with
  | Ret (r, s') =>
      let it := mkIteration (sigmask p) tr r in
      let p' := mkProcess (sigmask p) s' in
      if r =? 0 then
        match fuel with
        | O => ([it], Spin)
        | S fuel' =>
            let (its, o') := run_loop_over fuel' p' in
            (it :: its, o')
        end
      else ([it], Ret (r, p'))
  | Crash => ([], Crash)
  | Spin => ([], Spin)
  end.

(** manager.c, lines 214-231 *)
Definition manager_run_over (fuel : nat) (p : Process W)
    : list (Iteration W) * outcome (Z * Process W) :=
  let signew := sigaddset (sigaddset sigemptyset SIGTERM) SIGINT in
  let (sigold, p1) := sigprocmask SIG_BLOCK signew p in
  let (its, o) := run_loop_over fuel p1 in
  (its, bind o (fun rp =>
          let (_, p2) := sigprocmask SIG_SETMASK sigold (snd rp) in
          Ret (error_trace (fst rp), p2))).

(** The iterations of [its] are calls of [dispatch] that returned, the
    first on [s], each next one on the system the one before it left, and
    the last left [s_end]. *)
Fixpoint calls_chain (s : Sys W) (its : list (Iteration W)) (s_end : Sys W)
    : Prop :=
  match its with
  | [] => s_end = s
  | it :: its' =>
      exists fuel s',
        dispatch fuel s = (iter_steps it, Ret (iter_ret it, s')) /\
        calls_chain s' its' s_end
  end.
End Runs.

(** ** Entries that callbacks take off [processed] *)

(** [l] is what is left of [l'] when some of its entries are taken out:
    the entries of [l] are entries of [l'], in the order of [l']. *)
Inductive left_of {A : Type} : list A -> list A -> Prop :=
| left_nil : left_of [] []
| left_out : forall x l l', left_of l l' -> left_of l (x :: l')
| left_in : forall x l l', left_of l l' -> left_of (x :: l) (x :: l').

Section Unlinking.
Context {W : Type} `{collab : Collaborators W}.

(** A callback may unlink files from [processed] (its own, when it has
    consumed its events or queues itself again, or another's) but links
    none there. *)
Definition only_unlinks_processed : Prop :=
  forall file (s : Sys W) ret s',
    dispatch_file_call file s = Ret (ret, s') ->
    left_of (processed s') (processed s).
End Unlinking.

(** ** A small system to run the definitions on *)

Module Demo.
(** Sample values for the codes. *)
Definition codes : Codes := mkCodes 1 2 1 2.

(** The world: whether the controller still has output to flush. *)
Definition World : Type := bool.

Definition read_sigterm : ReadResult := mkReadResult 128 0 15.
Definition read_eio : ReadResult := mkReadResult (-1) 5 0.

Definition lift (s : Sys World) (o : outcome (Z * list string))
    : outcome (Z * Sys World) :=
  bind o (fun rs => Ret (fst rs, s)).

(** The signal file reads a SIGTERM record; the controller's file does
    nothing; file 0 flushes the controller and queues its hangup; file 1
    makes file 2 ready; file 3 fails; file 4 is a signal file whose read
    fails with EIO; the others do nothing. *)
Definition call (file : File) (s : Sys World) : outcome (Z * Sys World) :=
  match file with
  | SignalsFile =>
      lift s (@manager_dispatch_signals codes false read_sigterm EPOLLIN)
  | ControllerFile => Ret (manager_dispatch_controller file EPOLLIN, s)
  | OtherFile 0 =>
      Ret (0, mkSys (manager (with_hup (hup s ++ [Controller]) s))
                    (processed s) false)
  | OtherFile 1 =>
      Ret (0, with_ready (c_list_link_tail (ready s) (OtherFile 2)) s)
  | OtherFile 3 => Ret (@DISPATCH_E_FAILURE codes, s)
  | OtherFile 4 =>
      lift s (@manager_dispatch_signals codes false read_eio EPOLLIN)
  | OtherFile _ => Ret (0, s)
  end.

Definition collab : Collaborators World :=
  mkCollaborators
    (fun w connection => match connection with Controller => w | Peer _ => true end)
    (fun _ s => Ret (0, s))
    call.

(** The Manager that a construction without failure builds. *)
Definition fresh : Manager :=
  mkManager true true [] [] 7 true true.

Definition system (list : CList File) (hups : CList Conn) (running : bool)
    : Sys World :=
  mkSys (set_dispatcher_hup hups (set_dispatcher_list list fresh)) [] running.

(** A construction in which every call succeeds; the signalfd is 7. *)
Definition all_good : Environment :=
  mkEnvironment 0 0 1000 true 0 7 0 0 0 0.

(** Constructions that fail at one step. *)
Definition bad_descriptor : Environment :=
  mkEnvironment (-1) 9 0 true 0 7 0 0 0 0.
Definition bad_connection : Environment :=
  mkEnvironment 0 0 1000 true 0 7 0 0 0 (-22).

Definition empty_heap : Heap := mkHeap [] [].

Definition dispatch := @manager_dispatch codes World collab.
Definition loop := @dispatch_loop codes World collab.
Definition run := @manager_run codes World collab.

(** Two peers wait on the hangup list while the controller's file is
    ready: the steps of one pass. *)
Definition busy : Sys World := system [ControllerFile] [Peer 1; Peer 2] true.
Definition hangups : list (Step World) :=
  [mkStep busy (LHangup (Peer 1%nat) 0)
          (system [ControllerFile] [Peer 2] true);
   mkStep (system [ControllerFile] [Peer 2] true) (LHangup (Peer 2%nat) 0)
          (system [ControllerFile] [] true)].
Definition controller_call : Step World :=
  mkStep (system [ControllerFile] [] true) (LCall ControllerFile 0 0)
         (with_processed [ControllerFile] (system [] [] true)).

(** The signal file alone is ready. *)
Definition signalled : Sys World := system [SignalsFile] [] true.
(** File 3, which fails, is ready. *)
Definition failing : Sys World := system [OtherFile 3] [] true.
(** File 4, whose read fails, is ready. *)
Definition unreadable : Sys World := system [OtherFile 4] [] true.
(** File 1, which makes file 2 ready, then the signal file. *)
Definition queueing : Sys World := system [OtherFile 1; SignalsFile] [] true.
(** Nothing is ready and nothing hangs up. *)
Definition idle : Sys World := system [] [] true.

(** Collaborators that never stop the loop: the controller is always
    running and every callback returns 0. *)
Definition calm : Collaborators World :=
  mkCollaborators (fun _ _ => true) (fun _ s => Ret (0, s))
                  (fun _ s => Ret (0, s)).

(** Collaborators whose poll fails with EINTR. *)
Definition deaf : Collaborators World :=
  mkCollaborators (fun _ _ => true) (fun _ s => Ret (-4, s)) call.

(** The flushed controller hangs up behind a peer, with another peer
    behind it and a file ready. *)
Definition closing : Sys World :=
  system [ControllerFile] [Peer 1; Controller; Peer 2] false.

(** A callee for the run loop that returns zero while the world says so,
    and 1 after. *)
Definition countdown (fuel : nat) (s : Sys World)
    : list (Step World) * outcome (Z * Sys World) :=
  if world s then ([], Ret (0, mkSys (manager s) (processed s) false))
  else ([], Ret (1, s)).

(** Collaborators among which file 9 unlinks itself from the list it is on
    when its callback runs, as a file does that has consumed its events. *)
Definition fickle : Collaborators World :=
  mkCollaborators
    (fun w connection => match connection with Controller => w | Peer _ => true end)
    (fun _ s => Ret (0, s))
    (fun file s =>
       match file with
       | OtherFile 9 =>
           Ret (0, with_processed
                     (c_list_unlink file_eqb (OtherFile 9) (processed s)) s)
       | _ => call file s
       end).

(** File 9, then the signal file. *)
Definition consuming : Sys World := system [OtherFile 9; SignalsFile] [] true.
End Demo.

Unset Implicit Arguments.

(** * Proofs *)

(** ** Lists and identities *)
Lemma conn_eqb_refl : forall c, conn_eqb c c = true.
Proof. destruct c; simpl; auto using Nat.eqb_refl. Qed.

Lemma file_eqb_refl : forall f, file_eqb f f = true.
Proof. destruct f; simpl; auto using Nat.eqb_refl. Qed.

Lemma conn_eqb_eq : forall a b, conn_eqb a b = true <-> a = b.
Proof.
  destruct a, b; simpl; split; intro H; try congruence; try discriminate.
  - apply Nat.eqb_eq in H. congruence.
  - inversion H. apply Nat.eqb_refl.
Qed.

Lemma c_list_is_empty_nil : forall (A : Type) (l : CList A),
  c_list_is_empty l = true <-> l = [].
Proof. destruct l; simpl; split; congruence. Qed.

Lemma left_of_refl : forall (A : Type) (l : list A), left_of l l.
Proof. induction l; [apply left_nil|apply left_in; assumption]. Qed.

Lemma left_of_trans : forall (A : Type) (l1 l2 l3 : list A),
  left_of l1 l2 -> left_of l2 l3 -> left_of l1 l3.
Proof.
  intros A l1 l2 l3 H12 H23. revert l1 H12.
  induction H23 as [|x l2 l3 H IH|x l2 l3 H IH]; intros l1 H12.
  - exact H12.
  - apply left_out. apply IH. exact H12.
  - inversion H12; subst.
    + apply left_out. apply IH. assumption.
    + apply left_in. apply IH. assumption.
Qed.

Lemma left_of_app : forall (A : Type) (l1 l1' l2 l2' : list A),
  left_of l1 l1' -> left_of l2 l2' -> left_of (l1 ++ l2) (l1' ++ l2').
Proof.
  intros A l1 l1' l2 l2' H1 H2.
  induction H1; simpl; [exact H2|apply left_out|apply left_in]; assumption.
Qed.

Lemma left_of_incl : forall (A : Type) (l l' : list A),
  left_of l l' -> incl l l'.
Proof.
  intros A l l' H. induction H; intros y Hy; simpl in *; auto.
  - destruct Hy as [Hy|Hy]; auto.
Qed.

Lemma c_list_unlink_left : forall (A : Type) (eqb : A -> A -> bool) x l,
  left_of (c_list_unlink eqb x l) l.
Proof.
  intros A eqb x. induction l as [|y l IH]; simpl; [apply left_nil|].
  destruct (eqb x y);
    [apply left_out; apply left_of_refl|apply left_in; exact IH].
Qed.

(** ** Construction and teardown *)

Ltac run_heap :=
  cbv [bindM bind ret note acquire release assertM c_assert scope_exit
       manager_free connection_deinit dispatch_file_deinit c_close
       dispatch_context_deinit user_registry_deinit free user_entry_unref
       getsockopt calloc signalfd user_registry_init dispatch_context_init
       dispatch_file_init user_registry_ref_entry connection_init_server
       dispatch_file_select fst snd]; simpl.

(** Rewrite with a decided test and go on computing. *)
Ltac settle E := repeat (rewrite ?E, ?Z.eqb_refl; simpl).

(** The goal of a failed construction, once it has been run. *)
Ltac fails_cleanly :=
  do 3 eexists; split; [reflexivity|]; split; [|congruence];
  intros _; repeat split; auto.

(** C6: manager_new always returns; when any step of the construction fails
    it returns a non-zero error, writes no Manager through [managerp] and
    leaves the ledger of resources as it found it (all that was acquired is
    released again); a Manager is written only when no step failed, and the
    result is then 0.  A failing getsockopt or signalfd sets a positive
    errno. *)
Theorem manager_new_all_or_nothing :
  forall (e : Environment) (controller_fd : Z) (h : Heap),
    (getsockopt_ret e < 0 -> 0 < getsockopt_errno e) ->
    (signalfd_ret e < 0 -> 0 < signalfd_errno e) ->
    exists r managerp h',
      manager_new e controller_fd h = Ret (r, managerp, h') /\
      (construction_fails e = true ->
         r <> 0 /\ managerp = None /\ ledger h' = ledger h) /\
      (managerp <> None -> construction_fails e = false /\ r = 0).
Proof.
  intros e controller_fd h Hg Hs.
  unfold manager_new, construction_fails, error_origin, error_fold, ENOMEM.
  run_heap.
  destruct (getsockopt_ret e <? 0) eqn:E1; simpl.
  { apply Z.ltb_lt in E1. specialize (Hg E1). fails_cleanly. lia. }
  destruct (calloc_ok e) eqn:E2; simpl.
  2:{ fails_cleanly. discriminate. }
  destruct (dispatch_context_init_ret e =? 0) eqn:E3; settle E3.
  2:{ apply Z.eqb_neq in E3. fails_cleanly. }
  destruct (signalfd_ret e <? 0) eqn:E4; settle E4.
  { assert (E4' : (0 <=? signalfd_ret e) = false)
      by (apply Z.ltb_lt in E4; apply Z.leb_gt; lia).
    settle E4'. apply Z.ltb_lt in E4. specialize (Hs E4). fails_cleanly. lia. }
  assert (E4' : (0 <=? signalfd_ret e) = true)
    by (apply Z.ltb_ge in E4; apply Z.leb_le; lia).
  destruct (dispatch_file_init_ret e =? 0) eqn:E5; settle E5; settle E4'.
  2:{ apply Z.eqb_neq in E5. fails_cleanly. }
  destruct (user_registry_ref_entry_ret e =? 0) eqn:E6; settle E6; settle E4'.
  2:{ apply Z.eqb_neq in E6. fails_cleanly. }
  destruct (connection_init_server_ret e =? 0) eqn:E7; settle E7; settle E4'.
  2:{ apply Z.eqb_neq in E7. fails_cleanly. }
  do 3 eexists. split; [reflexivity|]. split; [discriminate|].
  intros _. split; reflexivity.
Qed.

Lemma manager_free_calls :
  forall (m : Manager) (h : Heap),
    (left_on_hup m = [] -> left_on_list m = [] ->
       exists h', manager_free (Some m) h = Ret (tt, h') /\
                  calls h' = calls h ++ teardown_calls m) /\
    (left_on_hup m <> [] \/ left_on_list m <> [] ->
       manager_free (Some m) h = Crash).
Proof.
  intros [u d l hu fd sf c] h.
  unfold left_on_hup, left_on_list, teardown_calls. simpl. split.
  - intros Hh Hl.
    destruct c, sf, d, u, (0 <=? fd) eqn:Efd; run_heap;
      rewrite ?Efd; simpl; rewrite Hh, Hl; simpl;
      (eexists; split; [reflexivity|]; simpl;
       repeat rewrite <- app_assoc; reflexivity).
  - intros H.
    destruct c, sf, d, u, (0 <=? fd) eqn:Efd; run_heap;
      rewrite ?Efd; simpl;
      (destruct (c_list_unlink conn_eqb Controller hu) eqn:Eh; simpl;
       [ destruct (c_list_unlink file_eqb SignalsFile
                     (c_list_unlink file_eqb ControllerFile l)) eqn:El; simpl;
         [ destruct H; congruence | reflexivity ]
       | reflexivity ]).
Qed.

(** C7: manager_free makes its calls in this order: connection_deinit,
    dispatch_file_deinit, c_close of the signal descriptor, the assertion on
    the hangup list, the assertion on the ready list,
    dispatch_context_deinit, user_registry_deinit, free; it crashes exactly
    when an assertion fails.  A Manager that manager_new has just built is
    torn down without a failing assertion, and every resource it held is
    released. *)
Theorem manager_free_order :
  forall (m : Manager) (h : Heap) (e : Environment) (controller_fd : Z),
    ((left_on_hup m = [] -> left_on_list m = [] ->
       exists h', manager_free (Some m) h = Ret (tt, h') /\
                  calls h' = calls h ++ teardown_calls m) /\
     (left_on_hup m <> [] \/ left_on_list m <> [] ->
       manager_free (Some m) h = Crash)) /\
    (construction_fails e = false ->
       exists m0 h1 h2,
         manager_new e controller_fd h = Ret (0, Some m0, h1) /\
         manager_free (Some m0) h1 = Ret (tt, h2) /\
         calls h2 = calls h1 ++ teardown_calls m0 /\
         ledger h2 = ledger h).
Proof.
  intros m h e controller_fd. split; [apply manager_free_calls|].
  unfold construction_fails. intros Hok.
  repeat (apply orb_false_elim in Hok; destruct Hok as [Hok ?]).
  repeat match goal with H : negb _ = false |- _ => apply negb_false_iff in H end.
  assert (E4' : (0 <=? signalfd_ret e) = true)
    by (apply Z.leb_le;
        match goal with
        | H : (signalfd_ret e <? 0) = false |- _ => apply Z.ltb_ge in H; lia
        end).
  unfold manager_new. run_heap.
  repeat (repeat match goal with H : _ = _ |- _ => rewrite H end; simpl).
  do 3 eexists. split; [reflexivity|].
  run_heap. settle E4'.
  split; [reflexivity|]. split; [|reflexivity].
  unfold teardown_calls. simpl. repeat rewrite <- app_assoc. reflexivity.
Qed.

(** ** The dispatch loop *)

Section Proofs.
Context `{codes : Codes} {W : Type} `{collab : Collaborators W}.

Lemma state_after_app : forall t1 t2 (s : Sys W),
  state_after s (t1 ++ t2) = state_after (state_after s t1) t2.
Proof. induction t1; simpl; auto. Qed.

Lemma chained_app : forall t1 t2 (s : Sys W),
  chained s (t1 ++ t2) <-> chained s t1 /\ chained (state_after s t1) t2.
Proof.
  induction t1 as [|a t1 IH]; simpl; intros t2 s; [tauto|].
  rewrite IH. tauto.
Qed.

Lemma sound_nil : forall s, sound s [].
Proof. split; simpl; auto. Qed.

Lemma sound_cons : forall s st tr,
  step_ok st -> pre st = s -> sound (post st) tr -> sound s (st :: tr).
Proof. intros s st tr H1 H2 [H3 H4]. split; simpl; auto. Qed.

Lemma sound_app : forall t1 t2 s,
  sound s t1 -> sound (state_after s t1) t2 -> sound s (t1 ++ t2).
Proof.
  intros t1 t2 s [F1 C1] [F2 C2]. split.
  - apply Forall_app; auto.
  - apply chained_app; auto.
Qed.

Lemma hangup_loop_sound : forall pending r s,
  hup s = pending ->
  sound s (fst (hangup_loop pending r s)) /\
  snd (snd (hangup_loop pending r s)) = state_after s (fst (hangup_loop pending r s)).
Proof.
  induction pending as [|connection rest IH]; intros r s Hp; simpl.
  - destruct (r =? 0); simpl; auto using sound_nil.
  - destruct (r =? 0); simpl; auto using sound_nil.
    specialize (IH (error_trace (manager_hangup (with_hup rest s) connection))
                   (with_hup rest s) eq_refl).
    destruct (hangup_loop rest _ (with_hup rest s)) as [tr res]; simpl in *.
    destruct IH as [IH1 IH2]. split; auto.
    apply sound_cons; simpl; auto.
    unfold step_ok; simpl. exists rest. auto.
Qed.

Lemma ready_loop_sound : forall fuel r s,
  sound s (fst (ready_loop fuel r s)) /\
  forall r' s', snd (ready_loop fuel r s) = Ret (r', s') ->
                s' = state_after s (fst (ready_loop fuel r s)).
Proof.
  induction fuel as [|fuel IH]; intros r s; simpl.
  - destruct ((r =? 0) && c_list_is_empty (hup s)); simpl;
      [destruct (c_list_first_entry (ready s)); simpl|];
      split; auto using sound_nil; intros; congruence.
  - destruct ((r =? 0) && c_list_is_empty (hup s)) eqn:Ec; simpl;
      [destruct (c_list_first_entry (ready s)) as [file|] eqn:Ef; simpl|];
      try (split; auto using sound_nil; intros; congruence).
    destruct (dispatch_file_call file (take_file file s)) as [[ret s2]| |] eqn:Ecall;
      try (split; simpl; auto using sound_nil; intros; congruence).
    specialize (IH (dispatch_result ret) s2).
    destruct (ready_loop fuel (dispatch_result ret) s2) as [tr o]; simpl in *.
    destruct IH as [IH1 IH2]. split; auto.
    apply sound_cons; simpl; auto.
    unfold step_ok; simpl.
    apply andb_true_iff in Ec. destruct Ec as [_ Ec].
    apply c_list_is_empty_nil in Ec. auto.
Qed.

Lemma dispatch_loop_eq : forall fuel r s,
  dispatch_loop fuel r s =
  let '(tr1, (r1, s1)) := hangup_loop (hup s) r s in
  let '(tr2, o) := ready_loop fuel r1 s1 in
  match o with
  | Ret (r2, s2) =>
      if r2 =? 0 then
        match fuel with
        | O => (tr1 ++ tr2, Spin)
        | S fuel' =>
            let (tr3, o3) := dispatch_loop fuel' r2 s2 in
            (tr1 ++ tr2 ++ tr3, o3)
        end
      else (tr1 ++ tr2, Ret (r2, s2))
  | Crash => (tr1 ++ tr2, Crash)
  | Spin => (tr1 ++ tr2, Spin)
  end.
Proof. destruct fuel; reflexivity. Qed.

Lemma dispatch_loop_sound : forall fuel r s,
  sound s (fst (dispatch_loop fuel r s)) /\
  forall r' s', snd (dispatch_loop fuel r s) = Ret (r', s') ->
                s' = state_after s (fst (dispatch_loop fuel r s)) /\ r' <> 0.
Proof.
  induction fuel as [|fuel IH]; intros r s; rewrite dispatch_loop_eq;
    destruct (hangup_loop_sound (hup s) r s eq_refl) as [H1 H1'];
    destruct (hangup_loop (hup s) r s) as [tr1 [r1 s1]]; simpl in H1, H1'.
  - destruct (ready_loop_sound 0 r1 s1) as [H2 H2'].
    destruct (ready_loop 0 r1 s1) as [tr2 [[r2 s2]| |]]; simpl in *;
      try (split; [apply sound_app; subst; auto | intros; congruence]).
    destruct (r2 =? 0) eqn:E; simpl;
      (split; [apply sound_app; subst; auto|]); intros r' s' Hr; [congruence|].
    inversion Hr; subst r' s'. rewrite state_after_app.
    split; [subst s1; apply (H2' r2); reflexivity | apply Z.eqb_neq; auto].
  - destruct (ready_loop_sound (S fuel) r1 s1) as [H2 H2'].
    destruct (ready_loop (S fuel) r1 s1) as [tr2 [[r2 s2]| |]]; simpl in H2, H2' |- *;
      try (split; [apply sound_app; subst; auto | simpl; intros; congruence]).
    destruct (r2 =? 0) eqn:E; simpl.
    + specialize (IH r2 s2).
      destruct (dispatch_loop fuel r2 s2) as [tr3 o3]; simpl in *.
      destruct IH as [IH1 IH2].
      specialize (H2' _ _ eq_refl).
      split.
      * apply sound_app; [auto|]. subst s1. apply sound_app; [auto|].
        rewrite <- H2'. auto.
      * intros r' s' Hr. rewrite !state_after_app. subst s1. rewrite <- H2'.
        apply IH2; auto.
    + split; [apply sound_app; subst; auto|]. intros r' s' Hr.
      inversion Hr; subst r' s'. rewrite state_after_app.
      split; [subst s1; apply (H2' r2); reflexivity | apply Z.eqb_neq; auto].
Qed.

Lemma manager_dispatch_trace : forall fuel s,
  fst (manager_dispatch fuel s) = [] \/
  exists s1,
    polled s = Ret (0, s1) /\
    fst (manager_dispatch fuel s) = fst (dispatch_loop fuel 0 s1).
Proof.
  intros fuel s. unfold manager_dispatch.
  destruct (polled s) as [[r s1]| |]; simpl; auto.
  destruct (r =? 0) eqn:E; simpl; auto.
  apply Z.eqb_eq in E. subst r. right. exists s1. split; auto.
  destruct (dispatch_loop fuel 0 s1); reflexivity.
Qed.

Lemma manager_dispatch_sound : forall fuel s,
  exists s1, sound s1 (fst (manager_dispatch fuel s)).
Proof.
  intros fuel s. destruct (manager_dispatch_trace fuel s) as [E|[s1 [_ E]]];
    rewrite E.
  - exists s. apply sound_nil.
  - exists s1. apply dispatch_loop_sound.
Qed.

Lemma hangup_step_result : forall st r,
  step_ok st -> lab st = LHangup Controller r ->
  connection_is_running (world (pre st)) Controller = true -> r = 0.
Proof.
  intros st r Hok Hl Hrun. unfold step_ok in Hok. rewrite Hl in Hok.
  destruct Hok as [rest [_ [Hpost Hr]]]. subst r.
  rewrite Hpost. unfold error_trace, manager_hangup. simpl.
  rewrite Hrun. reflexivity.
Qed.

(** C1: manager_hangup gives 0 for the controller while it is running,
    MAIN_EXIT for the controller once it is no longer running, and 0 for
    every other connection; so in every pass of manager_dispatch a hangup
    of the controller that finds it running gives 0, never an exit code. *)
Theorem manager_hangup_policy :
  forall (s : Sys W) (connection : Conn) (fuel : nat) (s0 : Sys W),
    (connection = Controller ->
     connection_is_running (world s) connection = true ->
     manager_hangup s connection = 0) /\
    (connection = Controller ->
     connection_is_running (world s) connection = false ->
     manager_hangup s connection = MAIN_EXIT) /\
    (connection <> Controller -> manager_hangup s connection = 0) /\
    Forall (fun st => forall r,
              lab st = LHangup Controller r ->
              connection_is_running (world (pre st)) Controller = true ->
              r = 0)
           (fst (manager_dispatch fuel s0)).
Proof.
  intros s connection fuel s0. unfold manager_hangup. repeat split.
  - intros -> ->. reflexivity.
  - intros -> ->. reflexivity.
  - intros Hne. destruct (conn_eqb connection Controller) eqn:E; auto.
    apply conn_eqb_eq in E. contradiction.
  - destruct (manager_dispatch_sound fuel s0) as [s1 [Hok _]].
    eapply Forall_impl; [|exact Hok].
    intros st Hst r. apply hangup_step_result; auto.
Qed.

Lemma hangups_then_call : forall t2 s st t3,
  sound s (t2 ++ st :: t3) -> is_call (lab st) = true ->
  hup (pre st) = [] /\
  pre (hd st t2) = s /\
  incl (hup s) (hung_up t2) /\
  (forallb (fun a => negb (is_call (lab a))) t2 = true -> hung_up t2 = hup s).
Proof.
  induction t2 as [|a t2 IH]; intros s st t3 [HF HC] Hcall; simpl in *.
  - inversion HF as [|? ? Hst _]; subst. destruct HC as [Hpre _].
    unfold step_ok in Hst. destruct (lab st); [discriminate|].
    destruct Hst as [Hh _]. rewrite <- Hpre, Hh.
    repeat split; auto. apply incl_nil_l.
  - inversion HF as [|? ? Ha HF']; subst. destruct HC as [Hpre HC'].
    destruct (IH (post a) st t3 (conj HF' HC') Hcall) as [I1 [_ [I3 I4]]].
    split; [exact I1|]. split; [exact Hpre|].
    unfold step_ok in Ha. destruct (lab a) as [c r|f ret r]; simpl.
    + destruct Ha as [rest [Hh [Hpost _]]]. rewrite Hpre in Hh.
      rewrite Hpost in I3, I4. simpl in I3, I4. rewrite Hh. split.
      * intros x [Hx|Hx]; [left; auto|right; apply I3; auto].
      * intros Hall. rewrite I4; auto.
    + destruct Ha as [Hh _]. rewrite Hpre in Hh. rewrite Hh.
      split; [apply incl_nil_l|discriminate].
Qed.

(** C2: in every pass of manager_dispatch, a callback of a ready-list
    entry is called only with the hangup list empty, and every connection
    that was on the hangup list at an earlier point of the pass (at its
    start, or after any step, a callback included) has been handed to the
    hangup policy before that call; when only hangups lie between, they
    are exactly that list, in its order. *)
Theorem hangups_before_dispatch :
  forall (fuel : nat) (s : Sys W) (t1 t2 t3 : list (Step W)) (st : Step W),
    fst (manager_dispatch fuel s) = t1 ++ t2 ++ st :: t3 ->
    is_call (lab st) = true ->
    hup (pre st) = [] /\
    incl (hup (pre (hd st t2))) (hung_up t2) /\
    (forallb (fun a => negb (is_call (lab a))) t2 = true ->
     hung_up t2 = hup (pre (hd st t2))).
Proof.
  intros fuel s t1 t2 t3 st Htr Hcall.
  destruct (manager_dispatch_sound fuel s) as [s1 [HF HC]].
  rewrite Htr in HF, HC.
  apply Forall_app in HF. destruct HF as [_ HF].
  apply chained_app in HC. destruct HC as [_ HC].
  destruct (hangups_then_call t2 _ st t3 (conj HF HC) Hcall) as [I1 [I2 [I3 I4]]].
  rewrite I2. auto.
Qed.

Lemma dispatch_loop_idle : forall fuel (s : Sys W),
  hup s = [] -> ready s = [] -> dispatch_loop fuel 0 s = ([], Spin).
Proof.
  induction fuel as [|fuel IH]; intros s Hh Hr; rewrite dispatch_loop_eq;
    rewrite Hh; simpl; rewrite Hh, Hr; simpl; auto.
  rewrite (IH s Hh Hr). reflexivity.
Qed.

Lemma hangup_loop_quiet : forall (Hq : quiet) pending (s : Sys W),
  fst (snd (hangup_loop pending 0 s)) = 0.
Proof.
  intros [Hh _]. induction pending as [|connection rest IH]; intros s; simpl; auto.
  rewrite Hh. unfold error_trace.
  specialize (IH (with_hup rest s)).
  destruct (hangup_loop rest 0 (with_hup rest s)) as [tr res]. exact IH.
Qed.

Lemma ready_loop_quiet : forall (Hq : quiet) fuel (s : Sys W),
  snd (ready_loop fuel 0 s) = Spin \/
  exists s', snd (ready_loop fuel 0 s) = Ret (0, s').
Proof.
  intros [_ Hc]. induction fuel as [|fuel IH]; intros s; simpl.
  - destruct (c_list_is_empty (hup s)); simpl; [|right; eauto].
    destruct (c_list_first_entry (ready s)); simpl; [left|right]; eauto.
  - destruct (c_list_is_empty (hup s)); simpl; [|right; eauto].
    destruct (c_list_first_entry (ready s)) as [file|]; simpl; [|right; eauto].
    destruct (Hc file (take_file file s)) as [ret [s2 [Hcall Hz]]].
    rewrite Hcall, Hz. specialize (IH s2).
    destruct (ready_loop fuel 0 s2) as [tr o]. exact IH.
Qed.

Lemma dispatch_loop_quiet : forall (Hq : quiet) fuel (s : Sys W),
  snd (dispatch_loop fuel 0 s) = Spin.
Proof.
  intros Hq. induction fuel as [|fuel IH]; intros s; rewrite dispatch_loop_eq;
    pose proof (hangup_loop_quiet Hq (hup s) s) as H1;
    destruct (hangup_loop (hup s) 0 s) as [tr1 [r1 s1]]; simpl in H1; subst r1.
  - destruct (ready_loop_quiet Hq 0 s1) as [H2|[s2 H2]];
      destruct (ready_loop 0 0 s1) as [tr2 o]; simpl in H2; subst o; reflexivity.
  - destruct (ready_loop_quiet Hq (S fuel) s1) as [H2|[s2 H2]];
      destruct (ready_loop (S fuel) 0 s1) as [tr2 o]; simpl in H2; subst o;
      [reflexivity|].
    simpl. specialize (IH s2).
    destruct (dispatch_loop fuel 0 s2) as [tr3 o3]. exact IH.
Qed.

(** C3: manager_dispatch never returns zero: whenever it returns, the
    result is non-zero.  When the poll succeeds and leaves both lists empty
    it does not return at all, whatever the fuel; nor does it when the poll
    succeeds and neither the hangup policy nor any callback gives a non-zero
    code.  The zero result of section 4.6, step 3 of the spec ("try polling
    again") is never produced: do { ... } while (!r) leaves only on a
    non-zero [r]. *)
Theorem manager_dispatch_never_returns_zero :
  forall (fuel : nat) (s : Sys W),
    (forall tr r s',
       manager_dispatch fuel s = (tr, Ret (r, s')) -> r <> 0) /\
    (forall s1,
       polled s = Ret (0, s1) ->
       hup s1 = [] -> ready s1 = [] ->
       manager_dispatch fuel s = ([], Spin)) /\
    (quiet -> forall s1,
       polled s = Ret (0, s1) ->
       snd (manager_dispatch fuel s) = Spin).
Proof.
  intros fuel s. split; [|split].
  - intros tr r s'. unfold manager_dispatch.
    destruct (polled s) as [[r0 s1]| |]; try discriminate.
    destruct (r0 =? 0) eqn:E; simpl.
    + destruct (dispatch_loop_sound fuel r0 s1) as [_ Hret].
      destruct (dispatch_loop fuel r0 s1) as [tr' [[r2 s2]| |]]; simpl in *;
        try discriminate.
      intros Heq. inversion Heq; subst.
      destruct (Hret _ _ eq_refl); auto.
    + intros Heq. inversion Heq; subst. unfold error_fold.
      apply Z.eqb_neq; auto.
  - intros s1 Hpoll Hh Hr. unfold manager_dispatch. rewrite Hpoll. simpl.
    rewrite (dispatch_loop_idle fuel s1 Hh Hr). reflexivity.
  - intros Hq s1 Hpoll. unfold manager_dispatch. rewrite Hpoll. simpl.
    pose proof (dispatch_loop_quiet Hq fuel s1) as Hspin.
    destruct (dispatch_loop fuel 0 s1) as [tr o]; simpl in *.
    rewrite Hspin. reflexivity.
Qed.

Lemma dispatch_result_exit : dispatch_result DISPATCH_E_EXIT = MAIN_EXIT.
Proof. unfold dispatch_result. rewrite Z.eqb_refl. reflexivity. Qed.

Lemma dispatch_result_failure :
  DISPATCH_E_EXIT <> DISPATCH_E_FAILURE ->
  dispatch_result DISPATCH_E_FAILURE = MAIN_FAILED.
Proof.
  intros Hd. unfold dispatch_result.
  destruct (Z.eqb_spec DISPATCH_E_FAILURE DISPATCH_E_EXIT); [congruence|].
  rewrite Z.eqb_refl. reflexivity.
Qed.

Lemma dispatch_result_other : forall ret,
  ret <> DISPATCH_E_EXIT -> ret <> DISPATCH_E_FAILURE ->
  dispatch_result ret = ret.
Proof.
  intros ret H1 H2. unfold dispatch_result, error_fold.
  destruct (Z.eqb_spec ret DISPATCH_E_EXIT); [contradiction|].
  destruct (Z.eqb_spec ret DISPATCH_E_FAILURE); [contradiction|].
  reflexivity.
Qed.

(** One callback from an empty hangup list: the loop goes on with the
    mapped result. *)
Lemma ready_loop_call : forall fuel (s : Sys W) file ret s2,
  hup s = [] -> c_list_first_entry (ready s) = Some file ->
  dispatch_file_call file (take_file file s) = Ret (ret, s2) ->
  ready_loop (S fuel) 0 s =
  (mkStep s (LCall file ret (dispatch_result ret)) s2
     :: fst (ready_loop fuel (dispatch_result ret) s2),
   snd (ready_loop fuel (dispatch_result ret) s2)).
Proof.
  intros fuel s file ret s2 Hh Hf Hc. simpl. rewrite Hh, Hf, Hc. simpl.
  destruct (ready_loop fuel (dispatch_result ret) s2). reflexivity.
Qed.

Lemma ready_loop_stopped : forall fuel r (s : Sys W),
  r <> 0 -> ready_loop fuel r s = ([], Ret (r, s)).
Proof.
  intros fuel r s Hr. apply Z.eqb_neq in Hr.
  destruct fuel; simpl; rewrite Hr; reflexivity.
Qed.

Lemma hangup_loop_none : forall r (s : Sys W),
  hup s = [] -> hangup_loop (hup s) r s = ([], (r, s)).
Proof. intros r s Hh. rewrite Hh. simpl. destruct (r =? 0); reflexivity. Qed.

(** A callback that gives a non-zero code from an empty hangup list ends
    the loop with that code. *)
Lemma dispatch_loop_call_stops : forall fuel (s : Sys W) file ret s2,
  hup s = [] -> c_list_first_entry (ready s) = Some file ->
  dispatch_file_call file (take_file file s) = Ret (ret, s2) ->
  dispatch_result ret <> 0 ->
  dispatch_loop (S fuel) 0 s =
  ([mkStep s (LCall file ret (dispatch_result ret)) s2],
   Ret (dispatch_result ret, s2)).
Proof.
  intros fuel s file ret s2 Hh Hf Hc Hnz.
  rewrite dispatch_loop_eq, (hangup_loop_none 0 s Hh).
  rewrite (ready_loop_call fuel s file ret s2 Hh Hf Hc).
  rewrite (ready_loop_stopped fuel (dispatch_result ret) s2 Hnz). simpl.
  apply Z.eqb_neq in Hnz. rewrite Hnz. reflexivity.
Qed.

(** C4: the result [ret] of a callback becomes MAIN_EXIT when it is
    DISPATCH_E_EXIT, MAIN_FAILED when it is DISPATCH_E_FAILURE, and stays
    [ret] otherwise; on zero the loop goes on with the next entry, on any
    other value it stops and returns that value. *)
Theorem dispatch_result_mapping :
  forall (Hdistinct : DISPATCH_E_EXIT <> DISPATCH_E_FAILURE)
         (fuel : nat) (s : Sys W) (file : File) (ret : Z) (s2 : Sys W),
    hup s = [] -> c_list_first_entry (ready s) = Some file ->
    dispatch_file_call file (take_file file s) = Ret (ret, s2) ->
    let r := dispatch_result ret in
    (ret = DISPATCH_E_EXIT -> r = MAIN_EXIT) /\
    (ret = DISPATCH_E_FAILURE -> r = MAIN_FAILED) /\
    (ret <> DISPATCH_E_EXIT -> ret <> DISPATCH_E_FAILURE -> r = ret) /\
    (r = 0 ->
     ready_loop (S fuel) 0 s =
     (mkStep s (LCall file ret 0) s2 :: fst (ready_loop fuel 0 s2),
      snd (ready_loop fuel 0 s2))) /\
    (r <> 0 ->
     dispatch_loop (S fuel) 0 s = ([mkStep s (LCall file ret r) s2], Ret (r, s2))).
Proof.
  intros Hd fuel s file ret s2 Hh Hf Hc r. subst r. repeat split.
  - intros ->. apply dispatch_result_exit.
  - intros ->. apply dispatch_result_failure; auto.
  - apply dispatch_result_other.
  - intros Hz. rewrite (ready_loop_call fuel s file ret s2 Hh Hf Hc), Hz. reflexivity.
  - apply dispatch_loop_call_stops; auto.
Qed.

Lemma manager_dispatch_call_stops : forall fuel (s s1 : Sys W) file ret s2,
  polled s = Ret (0, s1) ->
  hup s1 = [] -> c_list_first_entry (ready s1) = Some file ->
  dispatch_file_call file (take_file file s1) = Ret (ret, s2) ->
  dispatch_result ret <> 0 ->
  manager_dispatch (S fuel) s =
  ([mkStep s1 (LCall file ret (dispatch_result ret)) s2],
   Ret (dispatch_result ret, spliced s2)).
Proof.
  intros fuel s s1 file ret s2 Hp Hh Hf Hc Hnz.
  unfold manager_dispatch. rewrite Hp.
  change (negb (0 =? 0)) with false. cbv iota.
  rewrite (dispatch_loop_call_stops fuel s1 file ret s2 Hh Hf Hc Hnz).
  reflexivity.
Qed.

(** C5: called with EPOLLIN and a full read of one signalfd_siginfo,
    manager_dispatch_signals returns DISPATCH_E_EXIT whatever the signal
    and the verbosity; with another event mask, or a short read, it fails
    an assertion; and the pass of manager_dispatch that calls it returns
    MAIN_EXIT at once. *)
Theorem signals_always_exit :
  forall (Hexit : MAIN_EXIT <> 0)
         (main_arg_verbose : bool) (rd : ReadResult) (events : Z),
    (events = EPOLLIN -> read_ret rd = sizeof_signalfd_siginfo ->
     exists stderr,
       manager_dispatch_signals main_arg_verbose rd events
       = Ret (DISPATCH_E_EXIT, stderr)) /\
    (events <> EPOLLIN ->
     manager_dispatch_signals main_arg_verbose rd events = Crash) /\
    (events = EPOLLIN -> 0 <= read_ret rd ->
     read_ret rd <> sizeof_signalfd_siginfo ->
     manager_dispatch_signals main_arg_verbose rd events = Crash) /\
    (forall fuel (s s1 s2 : Sys W) ret stderr,
       read_ret rd = sizeof_signalfd_siginfo ->
       manager_dispatch_signals main_arg_verbose rd EPOLLIN = Ret (ret, stderr) ->
       polled s = Ret (0, s1) ->
       hup s1 = [] -> c_list_first_entry (ready s1) = Some SignalsFile ->
       dispatch_file_call SignalsFile (take_file SignalsFile s1) = Ret (ret, s2) ->
       manager_dispatch (S fuel) s =
       ([mkStep s1 (LCall SignalsFile DISPATCH_E_EXIT MAIN_EXIT) s2],
        Ret (MAIN_EXIT, spliced s2))).
Proof.
  intros Hexit verbose rd events.
  assert (Hfull : read_ret rd = sizeof_signalfd_siginfo ->
            exists stderr, manager_dispatch_signals verbose rd EPOLLIN
                           = Ret (DISPATCH_E_EXIT, stderr)).
  { intros Hl. unfold manager_dispatch_signals. simpl. rewrite Hl. simpl.
    eexists. reflexivity. }
  repeat split.
  - intros ->. exact Hfull.
  - intros Hne. unfold manager_dispatch_signals.
    apply Z.eqb_neq in Hne. rewrite Hne. reflexivity.
  - intros -> Hge Hne. unfold manager_dispatch_signals. simpl.
    destruct (Z.ltb_spec (read_ret rd) 0); [lia|].
    apply Z.eqb_neq in Hne. rewrite Hne. reflexivity.
  - intros fuel s s1 s2 ret stderr Hl Hsig Hp Hh Hf Hc.
    destruct (Hfull Hl) as [stderr' Hsig']. rewrite Hsig' in Hsig.
    inversion Hsig; subst ret.
    assert (Hnz : dispatch_result DISPATCH_E_EXIT <> 0)
      by (rewrite dispatch_result_exit; exact Hexit).
    pose proof (manager_dispatch_call_stops fuel s s1 SignalsFile
                  DISPATCH_E_EXIT s2 Hp Hh Hf Hc Hnz) as Hrun.
    rewrite dispatch_result_exit in Hrun. exact Hrun.
Qed.

(** C10: when the read fails, manager_dispatch_signals fails no assertion
    and returns the negated errno; the loop hands that value through
    unchanged, stops, and manager_dispatch returns it: a value that is
    neither zero, nor MAIN_EXIT, nor MAIN_FAILED. *)
Theorem signals_read_failure :
  forall (Hexit : 0 <= DISPATCH_E_EXIT) (Hfailure : 0 <= DISPATCH_E_FAILURE)
         (Hmain_exit : 0 <= MAIN_EXIT) (Hmain_failed : 0 <= MAIN_FAILED)
         (main_arg_verbose : bool) (rd : ReadResult),
    read_ret rd < 0 -> 0 < read_errno rd ->
    let r := - read_errno rd in
    manager_dispatch_signals main_arg_verbose rd EPOLLIN = Ret (r, []) /\
    r <> DISPATCH_E_EXIT /\
    dispatch_result r = r /\
    r <> 0 /\ r <> MAIN_EXIT /\ r <> MAIN_FAILED /\
    (forall fuel (s s1 s2 : Sys W) file,
       polled s = Ret (0, s1) ->
       hup s1 = [] -> c_list_first_entry (ready s1) = Some file ->
       dispatch_file_call file (take_file file s1) = Ret (r, s2) ->
       manager_dispatch (S fuel) s =
       ([mkStep s1 (LCall file r r) s2], Ret (r, spliced s2))).
Proof.
  intros H1 H2 H3 H4 verbose rd Hl He r.
  assert (Hmap : dispatch_result r = r)
    by (apply dispatch_result_other; subst r; lia).
  repeat split; try (subst r; lia); auto.
  - unfold manager_dispatch_signals, error_origin. simpl.
    destruct (Z.ltb_spec (read_ret rd) 0); [reflexivity|lia].
  - intros fuel s s1 s2 file Hp Hh Hf Hc.
    assert (Hnz : dispatch_result r <> 0) by (rewrite Hmap; subst r; lia).
    pose proof (manager_dispatch_call_stops fuel s s1 file r s2
                  Hp Hh Hf Hc Hnz) as Hrun.
    rewrite Hmap in Hrun. exact Hrun.
Qed.

Lemma called_files_app : forall (t1 t2 : list (Step W)),
  called_files (t1 ++ t2) = called_files t1 ++ called_files t2.
Proof.
  induction t1 as [|a t1 IH]; intros t2; simpl; auto.
  destruct (lab a); simpl; rewrite IH; reflexivity.
Qed.

Lemma hangup_loop_processed : forall pending r (s : Sys W),
  processed (snd (snd (hangup_loop pending r s))) = processed s /\
  called_files (fst (hangup_loop pending r s)) = [].
Proof.
  induction pending as [|connection rest IH]; intros r s; simpl.
  - destruct (r =? 0); simpl; auto.
  - destruct (r =? 0); simpl; auto.
    specialize (IH (error_trace (manager_hangup (with_hup rest s) connection))
                   (with_hup rest s)).
    destruct (hangup_loop rest _ (with_hup rest s)) as [tr res]; simpl in *.
    exact IH.
Qed.

Lemma ready_loop_processed : forall (Hkeep : keeps_processed) fuel r s r' s',
  snd (ready_loop fuel r s) = Ret (r', s') ->
  processed s' = processed s ++ called_files (fst (ready_loop fuel r s)).
Proof.
  intros Hkeep. induction fuel as [|fuel IH]; intros r s r' s'; simpl.
  - destruct ((r =? 0) && c_list_is_empty (hup s)); simpl;
      [destruct (c_list_first_entry (ready s)); simpl|];
      intros Heq; inversion Heq; subst; rewrite app_nil_r; reflexivity.
  - destruct ((r =? 0) && c_list_is_empty (hup s)); simpl;
      [destruct (c_list_first_entry (ready s)) as [file|]; simpl|];
      try (intros Heq; inversion Heq; subst; rewrite app_nil_r; reflexivity).
    destruct (dispatch_file_call file (take_file file s)) as [[ret s2]| |] eqn:Ecall;
      simpl; try discriminate.
    specialize (IH (dispatch_result ret) s2 r' s').
    destruct (ready_loop fuel (dispatch_result ret) s2) as [tr o]; simpl in *.
    intros Heq. rewrite (IH Heq), (Hkeep _ _ _ _ Ecall). simpl.
    unfold c_list_link_tail. rewrite <- app_assoc. reflexivity.
Qed.

Lemma dispatch_loop_processed : forall (Hkeep : keeps_processed) fuel r s r' s',
  snd (dispatch_loop fuel r s) = Ret (r', s') ->
  processed s' = processed s ++ called_files (fst (dispatch_loop fuel r s)).
Proof.
  intros Hkeep. induction fuel as [|fuel IH]; intros r s r' s';
    rewrite dispatch_loop_eq;
    destruct (hangup_loop_processed (hup s) r s) as [H1 H1'];
    destruct (hangup_loop (hup s) r s) as [tr1 [r1 s1]]; simpl in H1, H1'.
  - pose proof (ready_loop_processed Hkeep 0 r1 s1) as H2.
    destruct (ready_loop 0 r1 s1) as [tr2 [[r2 s2]| |]]; simpl in H2 |- *;
      try discriminate.
    destruct (r2 =? 0); simpl; try discriminate.
    intros Heq; inversion Heq; subst r' s'.
    rewrite called_files_app, H1', (H2 _ _ eq_refl), H1. reflexivity.
  - pose proof (ready_loop_processed Hkeep (S fuel) r1 s1) as H2.
    destruct (ready_loop (S fuel) r1 s1) as [tr2 [[r2 s2]| |]];
      simpl in H2 |- *; try discriminate.
    destruct (r2 =? 0); simpl.
    + specialize (IH r2 s2 r' s').
      destruct (dispatch_loop fuel r2 s2) as [tr3 o3]; simpl in *.
      intros Heq. rewrite (IH Heq), !called_files_app, H1', (H2 _ _ eq_refl), H1.
      simpl. rewrite app_assoc. reflexivity.
    + intros Heq; inversion Heq; subst r' s'.
      rewrite called_files_app, H1', (H2 _ _ eq_refl), H1. reflexivity.
Qed.

Lemma ready_loop_left : forall (Honly : only_unlinks_processed) fuel r s r' s',
  snd (ready_loop fuel r s) = Ret (r', s') ->
  left_of (processed s') (processed s ++ called_files (fst (ready_loop fuel r s))).
Proof.
  intros Honly. induction fuel as [|fuel IH]; intros r s r' s'; simpl.
  - destruct ((r =? 0) && c_list_is_empty (hup s)); simpl;
      [destruct (c_list_first_entry (ready s)); simpl|];
      intros Heq; inversion Heq; subst; rewrite app_nil_r; apply left_of_refl.
  - destruct ((r =? 0) && c_list_is_empty (hup s)); simpl;
      [destruct (c_list_first_entry (ready s)) as [file|]; simpl|];
      try (intros Heq; inversion Heq; subst; rewrite app_nil_r;
           apply left_of_refl).
    destruct (dispatch_file_call file (take_file file s)) as [[ret s2]| |] eqn:Ecall;
      simpl; try discriminate.
    specialize (IH (dispatch_result ret) s2 r' s').
    destruct (ready_loop fuel (dispatch_result ret) s2) as [tr o]; simpl in *.
    intros Heq. apply left_of_trans with (processed s2 ++ called_files tr).
    + apply IH. exact Heq.
    + change (processed s ++ file :: called_files tr)
        with (processed s ++ [file] ++ called_files tr).
      rewrite app_assoc. apply left_of_app; [|apply left_of_refl].
      apply (Honly _ _ _ _ Ecall).
Qed.

Lemma dispatch_loop_left : forall (Honly : only_unlinks_processed) fuel r s r' s',
  snd (dispatch_loop fuel r s) = Ret (r', s') ->
  left_of (processed s')
          (processed s ++ called_files (fst (dispatch_loop fuel r s))).
Proof.
  intros Honly. induction fuel as [|fuel IH]; intros r s r' s';
    rewrite dispatch_loop_eq;
    destruct (hangup_loop_processed (hup s) r s) as [H1 H1'];
    destruct (hangup_loop (hup s) r s) as [tr1 [r1 s1]]; simpl in H1, H1'.
  - pose proof (ready_loop_left Honly 0 r1 s1) as H2.
    destruct (ready_loop 0 r1 s1) as [tr2 [[r2 s2]| |]]; simpl in H2 |- *;
      try discriminate.
    destruct (r2 =? 0); simpl; try discriminate.
    intros Heq; inversion Heq; subst r' s'.
    rewrite called_files_app, H1'. simpl. rewrite <- H1. apply (H2 r2). reflexivity.
  - pose proof (ready_loop_left Honly (S fuel) r1 s1) as H2.
    destruct (ready_loop (S fuel) r1 s1) as [tr2 [[r2 s2]| |]];
      simpl in H2 |- *; try discriminate.
    specialize (H2 _ _ eq_refl). rewrite H1 in H2.
    destruct (r2 =? 0); simpl.
    + specialize (IH r2 s2 r' s').
      destruct (dispatch_loop fuel r2 s2) as [tr3 o3]; simpl in *.
      intros Heq. rewrite !called_files_app, H1'. simpl.
      apply left_of_trans with (processed s2 ++ called_files tr3);
        [apply IH; exact Heq|].
      rewrite app_assoc. apply left_of_app; [exact H2|apply left_of_refl].
    + intros Heq; inversion Heq; subst r' s'.
      rewrite called_files_app, H1'. exact H2.
Qed.

(** C9, as the code has it: when manager_dispatch returns, the ready list
    is the entries then on [processed], in their order, followed by what
    was on the ready list when the loop ended, and [processed] is empty.
    When the callbacks only unlink from [processed], its entries are
    dispatched files of this pass in the order of their dispatch (those no
    callback has unlinked since); when the callbacks leave [processed]
    alone, they are all the dispatched files. *)
Theorem spliced_back_in_order :
  forall (fuel : nat) (s s1 : Sys W) (tr : list (Step W)) (r : Z) (s' : Sys W),
    polled s = Ret (0, s1) -> processed s1 = [] ->
    manager_dispatch fuel s = (tr, Ret (r, s')) ->
    let s2 := state_after s1 tr in
    ready s' = processed s2 ++ ready s2 /\
    processed s' = [] /\
    (only_unlinks_processed -> left_of (processed s2) (called_files tr)) /\
    (keeps_processed -> processed s2 = called_files tr).
Proof.
  intros fuel s s1 tr r s' Hp Hempty. unfold manager_dispatch.
  rewrite Hp. change (negb (0 =? 0)) with false. cbv iota.
  pose proof (fun H => dispatch_loop_processed H fuel 0 s1) as Hkeep.
  pose proof (fun H => dispatch_loop_left H fuel 0 s1) as Honly.
  destruct (dispatch_loop_sound fuel 0 s1) as [_ Hafter].
  destruct (dispatch_loop fuel 0 s1) as [tr' [[r2 s2]| |]]; simpl in *;
    try discriminate.
  intros Heq; inversion Heq; subst tr r s'.
  destruct (Hafter _ _ eq_refl) as [Hs2 _]. rewrite <- Hs2.
  split; [reflexivity|]. split; [reflexivity|]. split.
  - intros H. specialize (Honly H _ _ eq_refl). rewrite Hempty in Honly.
    exact Honly.
  - intros H. specialize (Hkeep H _ _ eq_refl). rewrite Hempty in Hkeep.
    exact Hkeep.
Qed.

Lemma run_loop_eq : forall fuel p,
  run_loop fuel p =
  let (tr, o) := manager_dispatch fuel (sys p) in
  match o with
  | Ret (r, s') =>
      let it := mkIteration (sigmask p) tr r in
      let p' := mkProcess (sigmask p) s' in
      if r =? 0 then
        match fuel with
        | O => ([it], Spin)
        | S fuel' =>
            let (its, o') := run_loop fuel' p' in
            (it :: its, o')
        end
      else ([it], Ret (r, p'))
  | Crash => ([], Crash)
  | Spin => ([], Spin)
  end.
Proof. destruct fuel; reflexivity. Qed.

Lemma sigismember_blocked : forall (set : sigset_t) (signo : Z),
  1 <= signo ->
  sigismember
    (Z.lor set (sigaddset (sigaddset sigemptyset SIGTERM) SIGINT)) signo
  = sigismember set signo || (signo =? SIGTERM) || (signo =? SIGINT).
Proof.
  intros set signo Hs. unfold sigismember, sigaddset, sigemptyset.
  rewrite !Z.lor_spec, !Z.shiftl_1_l.
  rewrite !Z.pow2_bits_eqb by (unfold SIGTERM, SIGINT; lia).
  rewrite Z.bits_0, orb_false_l.
  replace (SIGTERM - 1 =? signo - 1) with (signo =? SIGTERM)
    by (destruct (Z.eqb_spec signo SIGTERM), (Z.eqb_spec (SIGTERM - 1) (signo - 1)); auto; lia).
  replace (SIGINT - 1 =? signo - 1) with (signo =? SIGINT)
    by (destruct (Z.eqb_spec signo SIGINT), (Z.eqb_spec (SIGINT - 1) (signo - 1)); auto; lia).
  rewrite orb_assoc. reflexivity.
Qed.

Lemma run_loop_over_eq : forall dispatch fuel (p : Process W),
  run_loop_over dispatch fuel p =
  let (tr, o) := dispatch fuel (sys p) in
  match o with
  | Ret (r, s') =>
      let it := mkIteration (sigmask p) tr r in
      let p' := mkProcess (sigmask p) s' in
      if r =? 0 then
        match fuel with
        | O => ([it], Spin)
        | S fuel' =>
            let (its, o') := run_loop_over dispatch fuel' p' in
            (it :: its, o')
        end
      else ([it], Ret (r, p'))
  | Crash => ([], Crash)
  | Spin => ([], Spin)
  end.
Proof. destruct fuel; reflexivity. Qed.

Lemma manager_run_over_manager_dispatch : forall fuel (p : Process W),
  manager_run fuel p = manager_run_over manager_dispatch fuel p.
Proof. reflexivity. Qed.

Lemma until_nonzero_one : forall (it : Iteration W),
  iter_ret it <> 0 -> until_nonzero [it] (iter_ret it).
Proof.
  intros it Hnz. exists [], it. simpl. repeat split; auto.
Qed.

Lemma until_nonzero_cons : forall (it : Iteration W) its r,
  iter_ret it = 0 -> until_nonzero its r -> until_nonzero (it :: its) r.
Proof.
  intros it its r Hz [before [last [Hits [Hall [Hl Hnz]]]]].
  exists (it :: before), last. subst its. repeat split; auto.
Qed.

Lemma until_nonzero_inv : forall (it : Iteration W) its r,
  until_nonzero (it :: its) r ->
  (its = [] /\ iter_ret it = r /\ r <> 0) \/
  (its <> [] /\ iter_ret it = 0 /\ until_nonzero its r).
Proof.
  intros it its r [before [last [Hits [Hall [Hl Hnz]]]]].
  destruct before as [|b before]; simpl in Hits.
  - inversion Hits; subst. left. auto.
  - inversion Hits; subst. right. inversion Hall; subst.
    split; [destruct before; discriminate|]. split; [assumption|].
    exists before, last. auto.
Qed.

Lemma run_loop_over_returns : forall dispatch fuel (p : Process W) its r p',
  run_loop_over dispatch fuel p = (its, Ret (r, p')) ->
  sigmask p' = sigmask p /\
  Forall (fun it => iter_mask it = sigmask p) its /\
  calls_chain dispatch (sys p) its (sys p') /\
  until_nonzero its r.
Proof.
  intros dispatch. induction fuel as [|fuel IH]; intros p its r p';
    rewrite run_loop_over_eq;
    destruct (dispatch _ (sys p)) as [tr [[r0 s0]| |]] eqn:Ed;
    try discriminate; cbv zeta; destruct (Z.eqb_spec r0 0) as [Hz|Hnz];
    try discriminate.
  - intros Heq; inversion Heq; subst. simpl. repeat split; auto.
    + exists 0%nat, s0. auto.
    + apply (until_nonzero_one (mkIteration (sigmask p) tr r)). exact Hnz.
  - specialize (IH (mkProcess (sigmask p) s0)).
    destruct (run_loop_over dispatch fuel (mkProcess (sigmask p) s0))
      as [its' o'].
    intros Heq; inversion Heq; subst.
    destruct (IH _ _ _ eq_refl) as [Hm [Hall [Hchain Hlast]]].
    simpl in *. repeat split; auto.
    + exists (S fuel), s0. auto.
    + apply until_nonzero_cons; auto.
  - intros Heq; inversion Heq; subst. simpl. repeat split; auto.
    + exists (S fuel), s0. auto.
    + apply (until_nonzero_one (mkIteration (sigmask p) tr r)). exact Hnz.
Qed.

(** For a callee that does not look at the fuel: the calls that return
    zero and the one that does not are all made, given fuel for them. *)
Lemma run_loop_over_reaches : forall (d : Sys W -> list (Step W) * outcome (Z * Sys W))
    its fuel (p : Process W) r s_end,
  (List.length its <= S fuel)%nat ->
  calls_chain (fun _ => d) (sys p) its s_end ->
  until_nonzero its r ->
  Forall (fun it => iter_mask it = sigmask p) its ->
  run_loop_over (fun _ => d) fuel p
  = (its, Ret (r, mkProcess (sigmask p) s_end)).
Proof.
  intros d. induction its as [|it its IH]; intros fuel p r s_end Hlen Hchain Hun Hmask.
  - destruct Hun as [before [last [Hits _]]]. destruct before; discriminate.
  - simpl in Hchain. destruct Hchain as [_ [s' [Hd Hchain]]].
    inversion Hmask as [|? ? Hm Hmask']; subst.
    rewrite run_loop_over_eq, Hd. cbv zeta.
    assert (Hit : mkIteration (sigmask p) (iter_steps it) (iter_ret it) = it)
      by (destruct it; simpl in *; subst; reflexivity).
    rewrite Hit.
    destruct (until_nonzero_inv _ _ _ Hun) as [[Hnil [Hr Hnz]]|[Hne [Hz Hun']]].
    + subst its. simpl in Hchain. subst s_end. rewrite Hr.
      apply Z.eqb_neq in Hnz. rewrite Hnz. reflexivity.
    + rewrite Hz. simpl.
      destruct fuel as [|fuel].
      { destruct its; [congruence|]. simpl in Hlen. lia. }
      simpl in Hlen.
      rewrite (IH fuel (mkProcess (sigmask p) s') r s_end); auto. lia.
Qed.

(** C8: manager_run is the run loop over manager_dispatch.  Over any
    callee, one that may return zero included: when the run returns, every
    call ran with the caller's signal mask plus exactly SIGTERM and SIGINT
    blocked; the calls were made one after the other, each on the system
    the one before it left; each call but the last returned zero, and the
    last returned the non-zero value that the run returns; the caller's
    signal mask is back in force.  And the calls are made: when a callee
    returns zero some times and then a non-zero value, the run, given fuel
    for these calls, makes them all and returns that value. *)
Theorem manager_run_contract :
  forall (dispatch : nat -> Sys W -> list (Step W) * outcome (Z * Sys W))
         (fuel : nat) (p : Process W) (its : list (Iteration W)) (r : Z)
         (p' : Process W),
    manager_run_over dispatch fuel p = (its, Ret (r, p')) ->
    (forall fuel0 p0,
       manager_run fuel0 p0 = manager_run_over manager_dispatch fuel0 p0) /\
    Forall (fun it => forall signo, 1 <= signo ->
              sigismember (iter_mask it) signo
              = sigismember (sigmask p) signo
                || (signo =? SIGTERM) || (signo =? SIGINT)) its /\
    calls_chain dispatch (sys p) its (sys p') /\
    until_nonzero its r /\
    sigmask p' = sigmask p /\
    (forall (d : Sys W -> list (Step W) * outcome (Z * Sys W))
            its0 fuel0 r0 s_end,
       (List.length its0 <= S fuel0)%nat ->
       calls_chain (fun _ => d) (sys p) its0 s_end ->
       until_nonzero its0 r0 ->
       Forall (fun it =>
                 iter_mask it
                 = Z.lor (sigmask p)
                     (sigaddset (sigaddset sigemptyset SIGTERM) SIGINT)) its0 ->
       manager_run_over (fun _ => d) fuel0 p
       = (its0, Ret (r0, mkProcess (sigmask p) s_end))).
Proof.
  intros dispatch fuel p its r p' Hrun.
  split; [apply manager_run_over_manager_dispatch|].
  assert (Hsound :
    Forall (fun it => forall signo, 1 <= signo ->
              sigismember (iter_mask it) signo
              = sigismember (sigmask p) signo
                || (signo =? SIGTERM) || (signo =? SIGINT)) its /\
    calls_chain dispatch (sys p) its (sys p') /\
    until_nonzero its r /\ sigmask p' = sigmask p).
  { revert Hrun. unfold manager_run_over, sigprocmask. simpl.
    set (p1 := mkProcess _ (sys p)).
    pose proof (run_loop_over_returns dispatch fuel p1) as Hloop.
    destruct (run_loop_over dispatch fuel p1) as [its' [[r0 p0]| |]]; simpl;
      try discriminate.
    intros Heq; inversion Heq; subst its r p'. unfold error_trace.
    destruct (Hloop _ _ _ eq_refl) as [_ [Hall [Hchain Hlast]]].
    repeat split; auto.
    eapply Forall_impl; [|exact Hall].
    intros it Hit signo Hs. rewrite Hit. subst p1. simpl.
    apply sigismember_blocked; auto. }
  destruct Hsound as [H1 [H2 [H3 H4]]].
  repeat (split; [assumption|]).
  intros d its0 fuel0 r0 s_end Hlen Hchain Hun Hmask.
  unfold manager_run_over, sigprocmask. simpl.
  set (p1 := mkProcess _ (sys p)).
  rewrite (run_loop_over_reaches d its0 fuel0 p1 r0 s_end Hlen Hchain Hun Hmask).
  reflexivity.
Qed.
End Proofs.

(** * The theorems at work on the small system *)

Lemma demo_keeps_processed : @keeps_processed Demo.World Demo.collab.
Proof.
  intros file s ret s' Hcall.
  destruct file as [| |[|[|[|[|[|n]]]]]]; vm_compute in Hcall;
    inversion Hcall; reflexivity.
Qed.

Lemma manager_hangup_policy_witness :
  @manager_hangup Demo.codes Demo.World Demo.collab Demo.busy Controller = 0 /\
  @manager_hangup Demo.codes Demo.World Demo.collab Demo.busy (Peer 1) = 0 /\
  @manager_hangup Demo.codes Demo.World Demo.collab
    (Demo.system [] [] false) Controller = 1.
Proof.
  pose proof (@manager_hangup_policy Demo.codes Demo.World Demo.collab
                Demo.busy Controller 1%nat Demo.busy) as [Hrun _].
  pose proof (@manager_hangup_policy Demo.codes Demo.World Demo.collab
                Demo.busy (Peer 1) 1%nat Demo.busy) as [_ [_ [Hpeer _]]].
  pose proof (@manager_hangup_policy Demo.codes Demo.World Demo.collab
                (Demo.system [] [] false) Controller 1%nat Demo.busy)
    as [_ [Hdone _]].
  split; [apply Hrun; reflexivity|].
  split; [apply Hpeer; discriminate|].
  apply Hdone; reflexivity.
Defined.

Lemma hangups_before_dispatch_witness :
  fst (Demo.dispatch 1 Demo.busy)
  = [] ++ Demo.hangups ++ Demo.controller_call :: [] /\
  is_call (lab Demo.controller_call) = true /\
  hup (pre Demo.controller_call) = [] /\
  incl (hup (pre (hd Demo.controller_call Demo.hangups)))
       (hung_up Demo.hangups) /\
  (forallb (fun a => negb (is_call (lab a))) Demo.hangups = true ->
   hung_up Demo.hangups = hup (pre (hd Demo.controller_call Demo.hangups))).
Proof.
  split; [reflexivity|]. split; [reflexivity|].
  apply (@hangups_before_dispatch Demo.codes Demo.World Demo.collab
           1%nat Demo.busy [] Demo.hangups [] Demo.controller_call);
    reflexivity.
Defined.

Lemma demo_calm_quiet : @quiet Demo.codes Demo.World Demo.calm.
Proof.
  split; [intros s [|n]; reflexivity|].
  intros file s. exists 0, s. split; reflexivity.
Qed.

Lemma manager_dispatch_never_returns_zero_witness :
  Demo.dispatch 50 Demo.idle = ([], Spin) /\
  snd (Demo.dispatch 1 Demo.signalled) <> Ret (0, Demo.idle) /\
  snd (@manager_dispatch Demo.codes Demo.World Demo.calm 50 Demo.busy) = Spin.
Proof.
  pose proof (@manager_dispatch_never_returns_zero Demo.codes Demo.World
                Demo.collab 50%nat Demo.idle) as [_ [Hidle _]].
  pose proof (@manager_dispatch_never_returns_zero Demo.codes Demo.World
                Demo.collab 1%nat Demo.signalled) as [Hret _].
  pose proof (@manager_dispatch_never_returns_zero Demo.codes Demo.World
                Demo.calm 50%nat Demo.busy) as [_ [_ Hcalm]].
  split; [apply (Hidle Demo.idle); reflexivity|]. split.
  - intros Heq.
    apply (Hret (fst (Demo.dispatch 1 Demo.signalled)) 0 Demo.idle);
      [|reflexivity].
    rewrite <- Heq. reflexivity.
  - apply (Hcalm demo_calm_quiet Demo.busy). reflexivity.
Defined.

Lemma dispatch_result_mapping_witness :
  @DISPATCH_E_EXIT Demo.codes <> @DISPATCH_E_FAILURE Demo.codes /\
  hup Demo.failing = [] /\
  c_list_first_entry (ready Demo.failing) = Some (OtherFile 3) /\
  Demo.call (OtherFile 3) (take_file (OtherFile 3) Demo.failing)
  = Ret (2, take_file (OtherFile 3) Demo.failing) /\
  @dispatch_result Demo.codes 2 = 2 /\
  Demo.loop 1 0 Demo.failing
  = ([mkStep Demo.failing (LCall (OtherFile 3) 2 2)
             (take_file (OtherFile 3) Demo.failing)],
     Ret (2, take_file (OtherFile 3) Demo.failing)).
Proof.
  assert (Hd : @DISPATCH_E_EXIT Demo.codes <> @DISPATCH_E_FAILURE Demo.codes)
    by (simpl; lia).
  pose proof (@dispatch_result_mapping Demo.codes Demo.World Demo.collab Hd
                0%nat Demo.failing (OtherFile 3) 2
                (take_file (OtherFile 3) Demo.failing)
                eq_refl eq_refl eq_refl) as [_ [Hfail [_ [_ Hstop]]]].
  split; [exact Hd|]. repeat (split; [reflexivity|]).
  apply Hstop. vm_compute. lia.
Defined.

Lemma signals_always_exit_witness :
  @MAIN_EXIT Demo.codes <> 0 /\
  @manager_dispatch_signals Demo.codes false Demo.read_sigterm EPOLLIN
  = Ret (1, []) /\
  Demo.dispatch 1 Demo.signalled
  = ([mkStep Demo.signalled (LCall SignalsFile 1 1)
             (take_file SignalsFile Demo.signalled)],
     Ret (1, spliced (take_file SignalsFile Demo.signalled))).
Proof.
  assert (Hexit : @MAIN_EXIT Demo.codes <> 0) by (simpl; lia).
  pose proof (@signals_always_exit Demo.codes Demo.World Demo.collab Hexit
                false Demo.read_sigterm EPOLLIN) as [_ [_ [_ Hpass]]].
  split; [exact Hexit|]. split; [reflexivity|].
  apply (Hpass 0%nat Demo.signalled Demo.signalled
               (take_file SignalsFile Demo.signalled) 1 []); reflexivity.
Defined.

Lemma manager_new_all_or_nothing_witness :
  construction_fails Demo.bad_descriptor = true /\
  exists r managerp h',
    manager_new Demo.bad_descriptor 3 Demo.empty_heap = Ret (r, managerp, h') /\
    (construction_fails Demo.bad_descriptor = true ->
     r <> 0 /\ managerp = None /\ ledger h' = ledger Demo.empty_heap) /\
    (managerp <> None -> construction_fails Demo.bad_descriptor = false /\ r = 0).
Proof.
  split; [reflexivity|].
  apply (manager_new_all_or_nothing Demo.bad_descriptor 3 Demo.empty_heap);
    simpl; lia.
Defined.

Lemma manager_free_order_witness :
  exists m0 h1 h2,
    manager_new Demo.all_good 3 Demo.empty_heap = Ret (0, Some m0, h1) /\
    manager_free (Some m0) h1 = Ret (tt, h2) /\
    calls h2 = calls h1 ++ teardown_calls m0 /\
    ledger h2 = ledger Demo.empty_heap.
Proof.
  pose proof (manager_free_order Demo.fresh Demo.empty_heap Demo.all_good 3)
    as [_ Hfresh].
  apply Hfresh. reflexivity.
Defined.

Lemma manager_run_contract_witness :
  @manager_run_over Demo.World Demo.countdown 3
    (@mkProcess Demo.World 4 Demo.idle)
  = ([@mkIteration Demo.World 16390 [] 0; @mkIteration Demo.World 16390 [] 1],
     Ret (1, @mkProcess Demo.World 4 (Demo.system [] [] false))) /\
  calls_chain Demo.countdown Demo.idle
    [@mkIteration Demo.World 16390 [] 0; @mkIteration Demo.World 16390 [] 1]
    (Demo.system [] [] false) /\
  until_nonzero
    [@mkIteration Demo.World 16390 [] 0; @mkIteration Demo.World 16390 [] 1]
    1 /\
  sigmask (@mkProcess Demo.World 4 (Demo.system [] [] false)) = 4.
Proof.
  split; [reflexivity|].
  pose proof (@manager_run_contract Demo.codes Demo.World Demo.collab
                Demo.countdown 3%nat (@mkProcess Demo.World 4 Demo.idle)
                _ _ _ eq_refl)
    as [_ [_ [Hchain [Hlast [Hmask _]]]]].
  split; [exact Hchain|]. split; [exact Hlast|exact Hmask].
Defined.

Lemma demo_fickle_only_unlinks :
  @only_unlinks_processed Demo.World Demo.fickle.
Proof.
  intros file s ret s' Hcall.
  destruct file as [| |[|[|[|[|[|[|[|[|[|[|n]]]]]]]]]]]; vm_compute in Hcall;
    inversion Hcall; subst; try apply left_of_refl;
    apply (c_list_unlink_left File file_eqb (OtherFile 9)).
Qed.

(** File 9 is moved to [processed], unlinks itself there, and is not on the
    ready list when the pass returns: the dispatched files are not all
    spliced back. *)
Lemma processed_not_all_spliced :
  @polled Demo.World Demo.fickle Demo.consuming = Ret (0, Demo.consuming) /\
  processed Demo.consuming = [] /\
  snd (@manager_dispatch Demo.codes Demo.World Demo.fickle 2 Demo.consuming)
  = Ret (1, Demo.system [SignalsFile] [] true) /\
  called_files
    (fst (@manager_dispatch Demo.codes Demo.World Demo.fickle 2 Demo.consuming))
  = [OtherFile 9; SignalsFile] /\
  ready (Demo.system [SignalsFile] [] true)
  <> called_files
       (fst (@manager_dispatch Demo.codes Demo.World Demo.fickle 2
               Demo.consuming))
     ++ ready
          (state_after Demo.consuming
             (fst (@manager_dispatch Demo.codes Demo.World Demo.fickle 2
                     Demo.consuming))).
Proof.
  repeat (split; [reflexivity|]). vm_compute. discriminate.
Qed.

Lemma spliced_back_in_order_witness :
  @polled Demo.World Demo.fickle Demo.consuming = Ret (0, Demo.consuming) /\
  processed Demo.consuming = [] /\
  @manager_dispatch Demo.codes Demo.World Demo.fickle 2 Demo.consuming
  = (fst (@manager_dispatch Demo.codes Demo.World Demo.fickle 2 Demo.consuming),
     Ret (1, Demo.system [SignalsFile] [] true)) /\
  ready (Demo.system [SignalsFile] [] true) = [SignalsFile] ++ [] /\
  left_of [SignalsFile] [OtherFile 9; SignalsFile].
Proof.
  repeat (split; [reflexivity|]).
  pose proof (@spliced_back_in_order Demo.codes Demo.World Demo.fickle 2%nat
                Demo.consuming Demo.consuming
                (fst (@manager_dispatch Demo.codes Demo.World Demo.fickle 2
                        Demo.consuming))
                1 (Demo.system [SignalsFile] [] true)
                eq_refl eq_refl eq_refl) as [_ [_ [Hleft _]]].
  exact (Hleft demo_fickle_only_unlinks).
Defined.

Lemma signals_read_failure_witness :
  read_ret Demo.read_eio < 0 /\ 0 < read_errno Demo.read_eio /\
  @manager_dispatch_signals Demo.codes false Demo.read_eio EPOLLIN
  = Ret (-5, []) /\
  @dispatch_result Demo.codes (-5) = -5 /\
  Demo.dispatch 1 Demo.unreadable
  = ([mkStep Demo.unreadable (LCall (OtherFile 4) (-5) (-5))
             (take_file (OtherFile 4) Demo.unreadable)],
     Ret (-5, spliced (take_file (OtherFile 4) Demo.unreadable))).
Proof.
  assert (Hret : read_ret Demo.read_eio < 0) by (simpl; lia).
  assert (Herrno : 0 < read_errno Demo.read_eio) by (simpl; lia).
  assert (H1 : 0 <= @DISPATCH_E_EXIT Demo.codes) by (simpl; lia).
  assert (H2 : 0 <= @DISPATCH_E_FAILURE Demo.codes) by (simpl; lia).
  assert (H3 : 0 <= @MAIN_EXIT Demo.codes) by (simpl; lia).
  assert (H4 : 0 <= @MAIN_FAILED Demo.codes) by (simpl; lia).
  pose proof (@signals_read_failure Demo.codes Demo.World Demo.collab
                H1 H2 H3 H4 false Demo.read_eio Hret Herrno)
    as [Hsig [_ [Hmap [_ [_ [_ Hpass]]]]]].
  split; [exact Hret|]. split; [exact Herrno|].
  split; [exact Hsig|]. split; [exact Hmap|].
  apply (Hpass 0%nat Demo.unreadable Demo.unreadable
               (take_file (OtherFile 4) Demo.unreadable) (OtherFile 4));
    reflexivity.
Defined.

(** The controller hangs up once its output is flushed: file 0 flushes it
    and queues the hangup, the policy gives MAIN_EXIT, and the pass returns
    it with file 0 back on the ready list. *)
Example controller_hangup_after_flush :
  snd (Demo.dispatch 1 (Demo.system [OtherFile 0] [] true))
  = Ret (1, Demo.system [OtherFile 0] [] false).
Proof. reflexivity. Qed.

(** The controller hangs up while it is still running: the policy gives 0,
    the hangup is consumed, and the pass goes on. *)
Example controller_hangup_while_running :
  hung_up (fst (Demo.dispatch 5 (Demo.system [] [Controller] true)))
  = [Controller] /\
  snd (Demo.dispatch 5 (Demo.system [] [Controller] true)) = Spin.
Proof. split; reflexivity. Qed.

(** A construction that fails at its last step gives back all it took. *)
Example failed_construction_unwinds :
  manager_new Demo.bad_connection 3 Demo.empty_heap
  = Ret (-22, None,
         mkHeap []
           [CallGetsockopt 3; CallCalloc; CallUserRegistryInit;
            CallDispatchContextInit; CallSignalfd 16386;
            CallDispatchFileInit 7 1; CallUserRegistryRefEntry 1000;
            CallConnectionInitServer 3; CallUserEntryUnref;
            CallConnectionDeinit; CallDispatchFileDeinit; CallClose 7;
            CallAssertHupEmpty; CallAssertListEmpty;
            CallDispatchContextDeinit; CallUserRegistryDeinit; CallFree]).
Proof. reflexivity. Qed.

(** * Further properties of the Manager *)

(** ** Construction *)

(** Run a construction through every step that may fail. *)
Ltac construct e :=
  unfold manager_new, error_origin, error_fold; run_heap;
  destruct (getsockopt_ret e <? 0) eqn:E1; simpl;
  [ | destruct (calloc_ok e) eqn:E2; simpl;
      [ destruct (dispatch_context_init_ret e =? 0) eqn:E3; settle E3;
        [ destruct (signalfd_ret e <? 0) eqn:E4; settle E4;
          [ assert (E4' : (0 <=? signalfd_ret e) = false)
              by (apply Z.ltb_lt in E4; apply Z.leb_gt; lia);
            settle E4'
          | assert (E4' : (0 <=? signalfd_ret e) = true)
              by (apply Z.ltb_ge in E4; apply Z.leb_le; lia);
            destruct (dispatch_file_init_ret e =? 0) eqn:E5;
            settle E5; settle E4';
            [ destruct (user_registry_ref_entry_ret e =? 0) eqn:E6;
              settle E6; settle E4';
              [ destruct (connection_init_server_ret e =? 0) eqn:E7;
                settle E7; settle E4'
              | ]
            | ] ]
        | ]
      | ] ].

Lemma sigismember_termination : forall signo : Z,
  1 <= signo ->
  sigismember (sigaddset (sigaddset sigemptyset SIGTERM) SIGINT) signo
  = (signo =? SIGTERM) || (signo =? SIGINT).
Proof.
  intros signo Hs.
  rewrite <- (Z.lor_0_l (sigaddset (sigaddset sigemptyset SIGTERM) SIGINT)).
  rewrite sigismember_blocked by exact Hs.
  unfold sigismember. rewrite Z.bits_0. reflexivity.
Qed.

(** X2: a construction in which no step fails returns 0 and writes a
    Manager with both lists empty that holds the descriptor signalfd gave;
    the signalfd is made for exactly SIGTERM and SIGINT and registered for
    EPOLLIN; the calls are made in the order of manager.c; and of the two
    references on the UserEntry the Connection's is the one left. *)
Theorem manager_new_success :
  forall (e : Environment) (controller_fd : Z) (h : Heap),
    construction_fails e = false ->
    let fd := signalfd_ret e in
    let mask := sigaddset (sigaddset sigemptyset SIGTERM) SIGINT in
    manager_new e controller_fd h
    = Ret (0, Some (mkManager true true [] [] fd true true),
           mkHeap
             (ResConnection :: ResUserRef :: ResWatch fd :: ResDescriptor fd
                :: ResContext :: ResRegistry :: ResStorage :: ledger h)
             (calls h
                ++ [CallGetsockopt controller_fd; CallCalloc;
                    CallUserRegistryInit; CallDispatchContextInit;
                    CallSignalfd mask; CallDispatchFileInit fd EPOLLIN;
                    CallUserRegistryRefEntry (ucred_uid e);
                    CallConnectionInitServer controller_fd;
                    CallDispatchFileSelect EPOLLIN; CallUserEntryUnref])) /\
    0 <= fd /\
    forall signo, 1 <= signo ->
      sigismember mask signo = (signo =? SIGTERM) || (signo =? SIGINT).
Proof.
  intros e controller_fd h Hok fd mask. subst fd mask.
  unfold construction_fails in Hok.
  split; [|split; [|apply sigismember_termination]].
  - construct e; simpl in Hok; try discriminate.
    repeat rewrite <- app_assoc. reflexivity.
  - repeat (apply orb_false_elim in Hok; destruct Hok as [Hok ?]).
    match goal with
    | H : (signalfd_ret e <? 0) = false |- _ => apply Z.ltb_ge in H; exact H
    end.
Qed.

(** X3: on every path manager_new gives up the reference on the UserEntry
    exactly once when user_registry_ref_entry had succeeded (on success
    too) and never otherwise, and frees the Manager's storage exactly once
    when calloc had succeeded and a later step failed, and never
    otherwise. *)
Theorem manager_new_gives_back_once :
  forall (e : Environment) (controller_fd : Z) (h : Heap),
    exists r managerp h' new,
      manager_new e controller_fd h = Ret (r, managerp, h') /\
      calls h' = calls h ++ new /\
      count is_unref new = (if reference_taken e then 1 else 0)%nat /\
      count is_free new
      = (if storage_taken e && construction_fails e then 1 else 0)%nat.
Proof.
  intros e controller_fd h.
  unfold reference_taken, storage_taken, construction_fails.
  construct e;
    (do 4 eexists; split; [reflexivity|]; split;
     [simpl; repeat rewrite <- app_assoc; simpl; reflexivity|];
     split; reflexivity).
Qed.

(** X4: manager_new returns the answer of the first step that fails: the
    negated errno of getsockopt or signalfd, -ENOMEM for calloc, the result
    of a collaborator's initialiser; the answers of later steps play no
    part; it returns 0 when none fails, and leaves [managerp] unwritten
    exactly when a step fails. *)
Theorem manager_new_first_error :
  forall (e : Environment) (controller_fd : Z) (h : Heap),
    exists managerp h',
      manager_new e controller_fd h = Ret (first_error e, managerp, h') /\
      (managerp = None <-> construction_fails e = true).
Proof.
  intros e controller_fd h. unfold first_error, construction_fails.
  construct e;
    (do 2 eexists; split; [reflexivity|]; split; intros; congruence).
Qed.

(** ** The signal callback *)

(** X9: main_arg_verbose changes nothing of what manager_dispatch_signals
    returns (or of its failed assertion); without it nothing is written;
    with it one line is written, and only when the callback signals exit,
    naming SIGTERM, SIGINT or SIG? after ssi_signo. *)
Theorem verbosity_only_logs :
  forall `{codes : Codes} (rd : ReadResult) (events : Z),
    returned (manager_dispatch_signals true rd events)
    = returned (manager_dispatch_signals false rd events) /\
    (forall r stderr,
       manager_dispatch_signals false rd events = Ret (r, stderr) ->
       stderr = []) /\
    (forall r stderr,
       manager_dispatch_signals true rd events = Ret (r, stderr) ->
       (read_ret rd < 0 /\ stderr = []) \/
       (read_ret rd = sizeof_signalfd_siginfo /\ r = DISPATCH_E_EXIT /\
        exists name,
          stderr = [String.append "Caught "
                      (String.append name (String.append ", exiting" newline))] /\
          (ssi_signo rd = SIGTERM -> name = "SIGTERM"%string) /\
          (ssi_signo rd = SIGINT -> name = "SIGINT"%string) /\
          (ssi_signo rd <> SIGTERM -> ssi_signo rd <> SIGINT ->
           name = "SIG?"%string))).
Proof.
  intros codes rd events. unfold manager_dispatch_signals, returned.
  destruct (events =? EPOLLIN); simpl;
    [|repeat split; intros; discriminate].
  destruct (Z.ltb_spec (read_ret rd) 0) as [Hneg|Hpos]; simpl.
  { repeat split; intros r stderr Heq; inversion Heq; auto. }
  destruct (Z.eqb_spec (read_ret rd) sizeof_signalfd_siginfo) as [Hfull|Hshort];
    simpl; [|repeat split; intros; discriminate].
  repeat split; intros r stderr Heq; inversion Heq; subst; auto.
  right. repeat split; auto. eexists. split; [reflexivity|].
  destruct (Z.eqb_spec (ssi_signo rd) SIGTERM) as [Ht|Ht];
    [|destruct (Z.eqb_spec (ssi_signo rd) SIGINT) as [Hi|Hi]];
    repeat split; intros; try reflexivity; try contradiction;
    unfold SIGTERM, SIGINT in *; congruence.
Qed.

(** ** Passes and runs *)

Section More.
Context `{codes : Codes} {W : Type} `{collab : Collaborators W}.

Lemma manager_dispatch_poll_failed : forall fuel (s s1 : Sys W) r,
  polled s = Ret (r, s1) -> r <> 0 ->
  manager_dispatch fuel s = ([], Ret (r, s1)).
Proof.
  intros fuel s s1 r Hp Hnz. unfold manager_dispatch. rewrite Hp.
  apply Z.eqb_neq in Hnz. rewrite Hnz. reflexivity.
Qed.

(** X1: when the poll of the first pass fails, manager_run returns the
    poll's error after that one pass, in which no hangup was handled and no
    callback called; the system is as the poll left it and the caller's
    signal mask is back in force. *)
Theorem poll_failure_ends_run :
  forall (fuel : nat) (p : Process W) (r : Z) (s1 : Sys W),
    polled (sys p) = Ret (r, s1) -> r <> 0 ->
    manager_run fuel p
    = ([mkIteration
          (Z.lor (sigmask p) (sigaddset (sigaddset sigemptyset SIGTERM) SIGINT))
          [] r],
       Ret (r, mkProcess (sigmask p) s1)).
Proof.
  intros fuel p r s1 Hp Hnz. unfold manager_run, sigprocmask. simpl.
  rewrite run_loop_eq. simpl.
  rewrite (manager_dispatch_poll_failed fuel (sys p) s1 r Hp Hnz).
  apply Z.eqb_neq in Hnz. rewrite Hnz. reflexivity.
Qed.

Lemma with_hup_same : forall (s : Sys W), with_hup (hup s) s = s.
Proof. intros [[? ? ? ? ? ? ?] ? ?]. reflexivity. Qed.

Lemma manager_hangup_nonzero : forall (s : Sys W) c,
  manager_hangup s c <> 0 ->
  c = Controller /\
  connection_is_running (world s) Controller = false /\
  manager_hangup s c = MAIN_EXIT.
Proof.
  intros s c. unfold manager_hangup.
  destruct (conn_eqb c Controller) eqn:E; [|congruence].
  apply conn_eqb_eq in E. subst c.
  destruct (connection_is_running (world s) Controller); [congruence|auto].
Qed.

Lemma hangup_loop_stopped : forall pending r (s : Sys W),
  r <> 0 -> hangup_loop pending r s = ([], (r, s)).
Proof.
  intros pending r s Hr. apply Z.eqb_neq in Hr.
  destruct pending; simpl; rewrite Hr; reflexivity.
Qed.

Lemma hangup_loop_frame : forall pending r (s : Sys W),
  hup s = pending ->
  hung_up (fst (hangup_loop pending r s))
    ++ hup (snd (snd (hangup_loop pending r s))) = pending /\
  snd (snd (hangup_loop pending r s))
  = with_hup (hup (snd (snd (hangup_loop pending r s)))) s.
Proof.
  induction pending as [|c rest IH]; intros r s Hp; simpl.
  - destruct (r =? 0); simpl; rewrite with_hup_same; auto.
  - destruct (r =? 0); simpl; [|rewrite with_hup_same; auto].
    specialize (IH (error_trace (manager_hangup (with_hup rest s) c))
                   (with_hup rest s) eq_refl).
    destruct (hangup_loop rest _ (with_hup rest s)) as [tr [r' s']].
    simpl in *. destruct IH as [I1 I2].
    split; [rewrite I1; reflexivity|]. rewrite I2 at 1. reflexivity.
Qed.

Lemma hangup_loop_drained : forall pending r (s : Sys W),
  hup s = pending ->
  fst (snd (hangup_loop pending r s)) = 0 ->
  hup (snd (snd (hangup_loop pending r s))) = [].
Proof.
  induction pending as [|c rest IH]; intros r s Hp; simpl.
  - destruct (r =? 0); simpl; auto.
  - destruct (Z.eqb_spec r 0) as [Hr|Hr]; simpl; [|congruence].
    specialize (IH (error_trace (manager_hangup (with_hup rest s) c))
                   (with_hup rest s) eq_refl).
    destruct (hangup_loop rest _ (with_hup rest s)) as [tr [r' s']].
    exact IH.
Qed.

Lemma hangup_loop_exit : forall pending (s : Sys W),
  fst (snd (hangup_loop pending 0 s)) <> 0 ->
  fst (snd (hangup_loop pending 0 s)) = MAIN_EXIT /\
  connection_is_running (world s) Controller = false /\
  exists before,
    hung_up (fst (hangup_loop pending 0 s)) = before ++ [Controller].
Proof.
  induction pending as [|c rest IH]; intros s; simpl; [congruence|].
  unfold error_trace.
  destruct (Z.eq_dec (manager_hangup (with_hup rest s) c) 0) as [Hz|Hnz].
  - rewrite Hz. specialize (IH (with_hup rest s)).
    destruct (hangup_loop rest 0 (with_hup rest s)) as [tr [r' s']].
    simpl in *. intros Hr. destruct (IH Hr) as [J1 [J2 [before J3]]].
    repeat split; auto. exists (c :: before). rewrite J3. reflexivity.
  - rewrite (hangup_loop_stopped rest _ (with_hup rest s) Hnz). simpl.
    intros _. destruct (manager_hangup_nonzero _ _ Hnz) as [Hc [Hrun Hexit]].
    subst c. repeat split; auto. exists []. reflexivity.
Qed.

Lemma hangup_loop_ignored : forall pending (s : Sys W),
  (forall c, In c pending -> manager_hangup s c = 0) ->
  fst (snd (hangup_loop pending 0 s)) = 0 /\
  hung_up (fst (hangup_loop pending 0 s)) = pending.
Proof.
  induction pending as [|c rest IH]; intros s Hall; simpl; auto.
  unfold error_trace.
  change (manager_hangup (with_hup rest s) c) with (manager_hangup s c).
  rewrite (Hall c (or_introl eq_refl)).
  specialize (IH (with_hup rest s) (fun c' Hin => Hall c' (or_intror Hin))).
  destruct (hangup_loop rest 0 (with_hup rest s)) as [tr [r' s']].
  simpl in *. destruct IH as [I1 I2]. rewrite I2. auto.
Qed.

(** X5: the hangup loop, entered with no code, changes nothing but the
    hangup list: the connections it handed to the policy followed by those
    it left are the list as it was, in order, and no callback runs.  It
    ends with the list empty and no code, or with MAIN_EXIT right after the
    hangup of the controller, which is then not running.  When the policy
    gives 0 for all of the list, all of it is consumed. *)
Theorem hangup_loop_conserves :
  forall (s : Sys W),
    let tr := fst (hangup_loop (hup s) 0 s) in
    let r' := fst (snd (hangup_loop (hup s) 0 s)) in
    let s' := snd (snd (hangup_loop (hup s) 0 s)) in
    hung_up tr ++ hup s' = hup s /\
    s' = with_hup (hup s') s /\
    called_files tr = [] /\
    (r' = 0 -> hup s' = []) /\
    (r' <> 0 ->
     r' = MAIN_EXIT /\
     connection_is_running (world s) Controller = false /\
     exists before, hung_up tr = before ++ [Controller]) /\
    ((forall c, In c (hup s) -> manager_hangup s c = 0) ->
     r' = 0 /\ hung_up tr = hup s).
Proof.
  intros s. cbv zeta.
  destruct (hangup_loop_frame (hup s) 0 s eq_refl) as [H1 H2].
  destruct (hangup_loop_processed (hup s) 0 s) as [_ H3].
  split; [exact H1|]. split; [exact H2|]. split; [exact H3|].
  split; [apply hangup_loop_drained; reflexivity|].
  split; [apply hangup_loop_exit|apply hangup_loop_ignored].
Qed.

Lemma hangup_loop_reaches_controller : forall (Hexit : MAIN_EXIT <> 0)
    before rest (s : Sys W),
  ~ In Controller before ->
  connection_is_running (world s) Controller = false ->
  snd (hangup_loop (before ++ Controller :: rest) 0 s)
  = (MAIN_EXIT, with_hup rest s) /\
  hung_up (fst (hangup_loop (before ++ Controller :: rest) 0 s))
  = before ++ [Controller].
Proof.
  intros Hexit. induction before as [|c before IH]; intros rest s Hnot Hrun;
    simpl; unfold error_trace.
  - assert (Hm : manager_hangup (with_hup rest s) Controller = MAIN_EXIT)
      by (unfold manager_hangup; simpl; rewrite Hrun; reflexivity).
    rewrite Hm.
    rewrite (hangup_loop_stopped rest MAIN_EXIT (with_hup rest s) Hexit).
    auto.
  - assert (Hc : manager_hangup (with_hup (before ++ Controller :: rest) s) c = 0).
    { unfold manager_hangup. destruct (conn_eqb c Controller) eqn:E; auto.
      apply conn_eqb_eq in E. subst c. exfalso. apply Hnot. left. reflexivity. }
    rewrite Hc.
    assert (Hnot' : ~ In Controller before) by (intros Hin; apply Hnot; right; exact Hin).
    specialize (IH rest (with_hup (before ++ Controller :: rest) s) Hnot' Hrun).
    destruct (hangup_loop (before ++ Controller :: rest) 0
                (with_hup (before ++ Controller :: rest) s)) as [tr res].
    simpl in *. destruct IH as [I1 I2]. rewrite I1, I2. auto.
Qed.

(** X6: when the poll succeeds and the controller, no longer running, is
    on the hangup list behind connections other than itself, the pass
    returns MAIN_EXIT, whatever the fuel: the connections before the
    controller and the controller are handed to the policy, no callback is
    called, and the connections behind the controller stay queued. *)
Theorem flushed_controller_hangup_exits :
  forall (Hexit : MAIN_EXIT <> 0) (fuel : nat) (s s1 : Sys W)
         (before rest : list Conn),
    polled s = Ret (0, s1) ->
    hup s1 = before ++ Controller :: rest ->
    ~ In Controller before ->
    connection_is_running (world s1) Controller = false ->
    snd (manager_dispatch fuel s) = Ret (MAIN_EXIT, spliced (with_hup rest s1)) /\
    hung_up (fst (manager_dispatch fuel s)) = before ++ [Controller] /\
    called_files (fst (manager_dispatch fuel s)) = [].
Proof.
  intros Hexit fuel s s1 before rest Hp Hh Hnot Hrun.
  unfold manager_dispatch. rewrite Hp. change (negb (0 =? 0)) with false.
  cbv iota. rewrite dispatch_loop_eq, Hh.
  destruct (hangup_loop_reaches_controller Hexit before rest s1 Hnot Hrun)
    as [Hres Hhung].
  pose proof (hangup_loop_processed (before ++ Controller :: rest) 0 s1)
    as [_ Hcalled].
  destruct (hangup_loop (before ++ Controller :: rest) 0 s1) as [tr1 [r1 s2]].
  simpl in Hres, Hhung, Hcalled. inversion Hres; subst r1 s2.
  rewrite (ready_loop_stopped fuel MAIN_EXIT (with_hup rest s1) Hexit).
  apply Z.eqb_neq in Hexit. rewrite Hexit. simpl. rewrite app_nil_r. auto.
Qed.

Lemma taken_on_zero_app : forall (t1 t2 : list (Step W)) r,
  taken_on_zero r (t1 ++ t2)
  <-> taken_on_zero r t1 /\ taken_on_zero (code_after r t1) t2.
Proof.
  induction t1 as [|a t1 IH]; intros t2 r; simpl; [tauto|].
  rewrite IH. tauto.
Qed.

Lemma code_after_app : forall (t1 t2 : list (Step W)) r,
  code_after r (t1 ++ t2) = code_after (code_after r t1) t2.
Proof. induction t1; simpl; auto. Qed.

Lemma hangup_loop_codes : forall pending r (s : Sys W),
  taken_on_zero r (fst (hangup_loop pending r s)) /\
  code_after r (fst (hangup_loop pending r s))
  = fst (snd (hangup_loop pending r s)).
Proof.
  induction pending as [|c rest IH]; intros r s; simpl.
  - destruct (r =? 0); simpl; auto.
  - destruct (Z.eqb_spec r 0) as [Hr|Hr]; simpl; auto.
    specialize (IH (error_trace (manager_hangup (with_hup rest s) c))
                   (with_hup rest s)).
    destruct (hangup_loop rest _ (with_hup rest s)) as [tr res].
    simpl in *. tauto.
Qed.

Lemma ready_loop_codes : forall fuel r (s : Sys W),
  taken_on_zero r (fst (ready_loop fuel r s)) /\
  forall r' s', snd (ready_loop fuel r s) = Ret (r', s') ->
                code_after r (fst (ready_loop fuel r s)) = r'.
Proof.
  induction fuel as [|fuel IH]; intros r s; simpl.
  - destruct ((r =? 0) && c_list_is_empty (hup s)); simpl;
      [destruct (c_list_first_entry (ready s)); simpl|];
      split; auto; intros; congruence.
  - destruct ((r =? 0) && c_list_is_empty (hup s)) eqn:Ec; simpl;
      [destruct (c_list_first_entry (ready s)) as [file|]; simpl|];
      try (split; auto; intros; congruence).
    destruct (dispatch_file_call file (take_file file s)) as [[ret s2]| |];
      try (split; simpl; auto; intros; congruence).
    specialize (IH (dispatch_result ret) s2).
    destruct (ready_loop fuel (dispatch_result ret) s2) as [tr o]; simpl in *.
    apply andb_true_iff in Ec. destruct Ec as [Ec _]. apply Z.eqb_eq in Ec.
    tauto.
Qed.

Lemma dispatch_loop_codes : forall fuel r (s : Sys W),
  taken_on_zero r (fst (dispatch_loop fuel r s)) /\
  forall r' s', snd (dispatch_loop fuel r s) = Ret (r', s') ->
                code_after r (fst (dispatch_loop fuel r s)) = r'.
Proof.
  induction fuel as [|fuel IH]; intros r s; rewrite dispatch_loop_eq;
    destruct (hangup_loop_codes (hup s) r s) as [H1 H1'];
    destruct (hangup_loop (hup s) r s) as [tr1 [r1 s1]]; simpl in H1, H1'.
  - destruct (ready_loop_codes 0 r1 s1) as [H2 H2'].
    destruct (ready_loop 0 r1 s1) as [tr2 [[r2 s2]| |]]; simpl in *;
      try (split; [apply taken_on_zero_app; subst; auto | intros; congruence]).
    destruct (r2 =? 0); simpl;
      (split; [apply taken_on_zero_app; subst; auto|]); intros r' s' Hr;
      [congruence|].
    inversion Hr; subst r' s'. rewrite code_after_app, H1'. apply (H2' r2 s2).
    reflexivity.
  - destruct (ready_loop_codes (S fuel) r1 s1) as [H2 H2'].
    destruct (ready_loop (S fuel) r1 s1) as [tr2 [[r2 s2]| |]];
      simpl in H2, H2' |- *;
      try (split; [apply taken_on_zero_app; subst; auto | simpl; intros; congruence]).
    specialize (H2' _ _ eq_refl).
    destruct (r2 =? 0); simpl.
    + specialize (IH r2 s2).
      destruct (dispatch_loop fuel r2 s2) as [tr3 o3]; simpl in *.
      destruct IH as [IH1 IH2]. split.
      * apply taken_on_zero_app. split; [auto|]. rewrite H1'.
        apply taken_on_zero_app. split; [auto|]. rewrite H2'. auto.
      * intros r' s' Hr. rewrite !code_after_app, H1', H2'. apply IH2 with s'; auto.
    + split; [apply taken_on_zero_app; subst; auto|]. intros r' s' Hr.
      inversion Hr; subst r' s'. rewrite code_after_app, H1'. exact H2'.
Qed.

Lemma taken_on_zero_inner : forall (t1 t2 : list (Step W)) st r,
  taken_on_zero r (t1 ++ st :: t2) -> t2 <> [] -> step_code st = 0.
Proof.
  intros t1 t2 st r H Hne. apply taken_on_zero_app in H. destruct H as [_ H].
  simpl in H. destruct H as [_ H]. destruct t2 as [|st2 t2]; [congruence|].
  simpl in H. tauto.
Qed.

Lemma step_ok_code : forall st : Step W,
  step_ok st ->
  match lab st with
  | LHangup connection r =>
      r = 0 \/
      (r = MAIN_EXIT /\ connection = Controller /\
       connection_is_running (world (pre st)) Controller = false)
  | LCall _ ret r => r = dispatch_result ret
  end.
Proof.
  intros st Hok. unfold step_ok in Hok.
  destruct (lab st) as [c r|f ret r].
  - destruct Hok as [rest [_ [Hpost Hr]]]. unfold error_trace in Hr.
    destruct (Z.eq_dec r 0) as [Hz|Hnz]; [left; exact Hz|right].
    rewrite Hr in Hnz.
    destruct (manager_hangup_nonzero _ _ Hnz) as [Hc [Hrun Hexit]].
    rewrite Hpost in Hrun. simpl in Hrun. rewrite Hr. auto.
  - tauto.
Qed.

(** X7: in a pass every step but the last leaves the loop's code at
    zero.  What manager_dispatch returns is the error of the poll, when no
    step was made, or else the code of the last step.  The code of a hangup
    is 0, or MAIN_EXIT for the controller found not running; the code of a
    call is the mapped result of the callback. *)
Theorem codes_of_a_pass :
  forall (fuel : nat) (s : Sys W),
    (forall t1 st t2,
       fst (manager_dispatch fuel s) = t1 ++ st :: t2 -> t2 <> [] ->
       step_code st = 0) /\
    (forall r s',
       snd (manager_dispatch fuel s) = Ret (r, s') ->
       (fst (manager_dispatch fuel s) = [] /\
        exists s1, polled s = Ret (r, s1)) \/
       (exists t1 st,
          fst (manager_dispatch fuel s) = t1 ++ [st] /\ step_code st = r)) /\
    Forall (fun st =>
              match lab st with
              | LHangup connection r =>
                  r = 0 \/
                  (r = MAIN_EXIT /\ connection = Controller /\
                   connection_is_running (world (pre st)) Controller = false)
              | LCall _ ret r => r = dispatch_result ret
              end)
           (fst (manager_dispatch fuel s)).
Proof.
  intros fuel s. split; [|split].
  - intros t1 st t2 Htr Hne.
    destruct (manager_dispatch_trace fuel s) as [E|[s1 [_ E]]]; rewrite E in Htr.
    + destruct t1; discriminate.
    + destruct (dispatch_loop_codes fuel 0 s1) as [Htaken _].
      rewrite Htr in Htaken. exact (taken_on_zero_inner _ _ _ _ Htaken Hne).
  - intros r s'. unfold manager_dispatch.
    destruct (polled s) as [[r0 s1]| |] eqn:Hp; try discriminate.
    destruct (Z.eqb_spec r0 0) as [Hz|Hnz]; simpl.
    + subst r0. destruct (dispatch_loop_codes fuel 0 s1) as [_ Hcode].
      destruct (dispatch_loop_sound fuel 0 s1) as [_ Hnz].
      destruct (dispatch_loop fuel 0 s1) as [tr [[r2 s2]| |]]; simpl in *;
        try discriminate.
      intros Heq. inversion Heq; subst r s'. right.
      specialize (Hcode _ _ eq_refl). destruct (Hnz _ _ eq_refl) as [_ Hr2].
      destruct (exists_last (l := tr)) as [t1 [st Htr]].
      { intros ->. simpl in Hcode. congruence. }
      exists t1, st. split; [exact Htr|].
      rewrite Htr, code_after_app in Hcode. exact Hcode.
    + intros Heq. inversion Heq; subst. left. split; [reflexivity|].
      exists s'. reflexivity.
  - destruct (manager_dispatch_sound fuel s) as [s1 [Hok _]].
    eapply Forall_impl; [|exact Hok]. apply step_ok_code.
Qed.

Lemma manager_dispatch_ret_nonzero : forall fuel (s : Sys W) tr r s',
  manager_dispatch fuel s = (tr, Ret (r, s')) -> r <> 0.
Proof.
  intros fuel s tr r s'. unfold manager_dispatch.
  destruct (polled s) as [[r0 s1]| |]; try discriminate.
  destruct (Z.eqb_spec r0 0) as [Hz|Hnz]; simpl.
  - destruct (dispatch_loop_sound fuel r0 s1) as [_ Hret].
    destruct (dispatch_loop fuel r0 s1) as [tr' [[r2 s2]| |]]; simpl in *;
      try discriminate.
    intros Heq. inversion Heq; subst. destruct (Hret _ _ eq_refl); auto.
  - intros Heq. inversion Heq; subst. exact Hnz.
Qed.

Lemma run_loop_single : forall fuel (p : Process W),
  match manager_dispatch fuel (sys p) with
  | (tr, Ret (r, s')) =>
      run_loop fuel p
      = ([mkIteration (sigmask p) tr r], Ret (r, mkProcess (sigmask p) s'))
  | (_, Crash) => run_loop fuel p = ([], Crash)
  | (_, Spin) => run_loop fuel p = ([], Spin)
  end.
Proof.
  intros fuel p. rewrite run_loop_eq.
  destruct (manager_dispatch fuel (sys p)) as [tr [[r s']| |]] eqn:E; auto.
  apply manager_dispatch_ret_nonzero in E. apply Z.eqb_neq in E.
  cbv zeta. rewrite E. reflexivity.
Qed.

(** X8: manager_run never calls manager_dispatch a second time: its log
    holds one call at most, and when it returns it returns what that one
    call returned, with the system that call left. *)
Theorem manager_run_single_pass :
  forall (fuel : nat) (p : Process W),
    let blocked :=
      Z.lor (sigmask p) (sigaddset (sigaddset sigemptyset SIGTERM) SIGINT) in
    (List.length (fst (manager_run fuel p)) <= 1)%nat /\
    (forall r p',
       snd (manager_run fuel p) = Ret (r, p') ->
       exists tr s',
         manager_dispatch fuel (sys p) = (tr, Ret (r, s')) /\
         fst (manager_run fuel p) = [mkIteration blocked tr r] /\
         p' = mkProcess (sigmask p) s') /\
    (forall tr r s',
       manager_dispatch fuel (sys p) = (tr, Ret (r, s')) ->
       manager_run fuel p
       = ([mkIteration blocked tr r], Ret (r, mkProcess (sigmask p) s'))).
Proof.
  intros fuel p blocked. subst blocked.
  unfold manager_run, sigprocmask. cbv zeta. simpl fst. simpl snd.
  set (p1 := mkProcess _ (sys p)).
  pose proof (run_loop_single fuel p1) as Hone. subst p1. simpl in Hone.
  destruct (manager_dispatch fuel (sys p)) as [tr [[r s']| |]];
    rewrite Hone; simpl; unfold error_trace.
  - split; [lia|]. split.
    + intros r0 p' Heq. inversion Heq; subst. eauto.
    + intros tr0 r0 s0 Heq. inversion Heq; subst. reflexivity.
  - split; [lia|]. split; intros; discriminate.
  - split; [lia|]. split; intros; discriminate.
Qed.

Lemma sound_ready : forall (Hkeep : keeps_ready) tr (s : Sys W),
  sound s tr -> called_files tr ++ ready (state_after s tr) = ready s.
Proof.
  intros Hkeep. induction tr as [|st tr IH]; intros s [HF HC]; simpl; auto.
  inversion HF as [|? ? Hst HF']; subst. destruct HC as [Hpre HC'].
  specialize (IH (post st) (conj HF' HC')).
  unfold step_ok in Hst. destruct (lab st) as [c r|f ret r].
  - destruct Hst as [rest [_ [Hpost _]]]. rewrite IH, Hpost, Hpre. reflexivity.
  - destruct Hst as [_ [Hf [Hcall _]]]. simpl. rewrite IH.
    rewrite (Hkeep _ _ _ _ Hcall). rewrite Hpre in *.
    unfold take_file. simpl. change (dispatcher_list (manager s)) with (ready s).
    destruct (ready s) as [|f' l]; [discriminate|]. simpl in Hf.
    inversion Hf; subst f'. simpl. rewrite file_eqb_refl. reflexivity.
Qed.

(** X10: when the callbacks leave the ready list alone, the files whose
    callbacks a pass has called, followed by the files still on the ready
    list, are the ready list as the poll left it: the entries are called
    in the order of the list, none is skipped, and none is called twice
    when the list holds none twice. *)
Theorem ready_entries_in_order :
  forall (Hkeep : keeps_ready) (fuel : nat) (s s1 : Sys W),
    polled s = Ret (0, s1) ->
    called_files (fst (manager_dispatch fuel s))
      ++ ready (state_after s1 (fst (manager_dispatch fuel s)))
    = ready s1 /\
    (NoDup (ready s1) -> NoDup (called_files (fst (manager_dispatch fuel s)))).
Proof.
  intros Hkeep fuel s s1 Hp.
  assert (Htr : fst (manager_dispatch fuel s) = fst (dispatch_loop fuel 0 s1)).
  { unfold manager_dispatch. rewrite Hp. simpl.
    destruct (dispatch_loop fuel 0 s1); reflexivity. }
  rewrite Htr.
  destruct (dispatch_loop_sound fuel 0 s1) as [Hsound _].
  pose proof (sound_ready Hkeep _ _ Hsound) as Heq.
  split; [exact Heq|]. intros Hnd. rewrite <- Heq in Hnd.
  apply NoDup_app_remove_r in Hnd. exact Hnd.
Qed.
End More.

(** ** The further properties at work on the small system *)

Lemma demo_calm_keeps_ready : @keeps_ready Demo.World Demo.calm.
Proof. intros file s ret s' Hcall. inversion Hcall. reflexivity. Qed.

Lemma poll_failure_ends_run_witness :
  @polled Demo.World Demo.deaf Demo.signalled = Ret (-4, Demo.signalled) /\
  @manager_run Demo.codes Demo.World Demo.deaf 3
    (@mkProcess Demo.World 4 Demo.signalled)
  = ([@mkIteration Demo.World 16390 [] (-4)],
     Ret (-4, @mkProcess Demo.World 4 Demo.signalled)).
Proof.
  split; [reflexivity|].
  apply (@poll_failure_ends_run Demo.codes Demo.World Demo.deaf 3%nat
           (@mkProcess Demo.World 4 Demo.signalled) (-4) Demo.signalled);
    [reflexivity|lia].
Defined.

Lemma manager_new_success_witness :
  construction_fails Demo.all_good = false /\
  manager_new Demo.all_good 3 Demo.empty_heap
  = Ret (0, Some Demo.fresh,
         mkHeap
           [ResConnection; ResUserRef; ResWatch 7; ResDescriptor 7;
            ResContext; ResRegistry; ResStorage]
           [CallGetsockopt 3; CallCalloc; CallUserRegistryInit;
            CallDispatchContextInit; CallSignalfd 16386;
            CallDispatchFileInit 7 1; CallUserRegistryRefEntry 1000;
            CallConnectionInitServer 3; CallDispatchFileSelect 1;
            CallUserEntryUnref]).
Proof.
  split; [reflexivity|].
  pose proof (manager_new_success Demo.all_good 3 Demo.empty_heap eq_refl)
    as [Hnew _].
  exact Hnew.
Defined.

Lemma flushed_controller_hangup_exits_witness :
  @MAIN_EXIT Demo.codes <> 0 /\
  hup Demo.closing = [Peer 1] ++ Controller :: [Peer 2] /\
  snd (Demo.dispatch 0 Demo.closing)
  = Ret (1, Demo.system [ControllerFile] [Peer 2] false) /\
  hung_up (fst (Demo.dispatch 0 Demo.closing)) = [Peer 1; Controller] /\
  called_files (fst (Demo.dispatch 0 Demo.closing)) = [].
Proof.
  assert (Hexit : @MAIN_EXIT Demo.codes <> 0) by (simpl; lia).
  assert (Hnot : ~ In Controller [Peer 1]).
  { intros [Hin|[]]. discriminate Hin. }
  split; [exact Hexit|]. split; [reflexivity|].
  apply (@flushed_controller_hangup_exits Demo.codes Demo.World Demo.collab
           Hexit 0%nat Demo.closing Demo.closing [Peer 1] [Peer 2]
           eq_refl eq_refl Hnot eq_refl).
Defined.

Lemma ready_entries_in_order_witness :
  @polled Demo.World Demo.calm Demo.queueing = Ret (0, Demo.queueing) /\
  called_files
    (fst (@manager_dispatch Demo.codes Demo.World Demo.calm 5 Demo.queueing))
  = [OtherFile 1; SignalsFile] /\
  called_files
    (fst (@manager_dispatch Demo.codes Demo.World Demo.calm 5 Demo.queueing))
    ++ ready
         (state_after Demo.queueing
            (fst (@manager_dispatch Demo.codes Demo.World Demo.calm 5
                    Demo.queueing)))
  = ready Demo.queueing.
Proof.
  split; [reflexivity|]. split; [reflexivity|].
  pose proof (@ready_entries_in_order Demo.codes Demo.World Demo.calm
                demo_calm_keeps_ready 5%nat Demo.queueing Demo.queueing
                eq_refl) as [Horder _].
  exact Horder.
Defined.
